(** * git-logger: history reader and history replayer

    A shallow embedding of [src/index.ts] (class [GitLogger] and the
    command-line entry point) together with the properties of its
    specification.  The earlier version of the file, which has the reader
    and the printer only, has the same [getCommits] and
    [printCommitHistory], line for line.

    The program talks to two collaborators: the [simple-git] library, which
    runs the external version-control tool, and the console.  Both are
    effects.  A computation is a function from the state of the outside
    world to an outcome: what it returned or threw, the events it produced
    in chronological order, and the world it left behind.  The behaviour of
    the external tool is a parameter of the development ([GitTool]); every
    theorem holds for whatever the tool answers.  The library refuses to
    make a handle on a directory that does not exist: [simpleGit(dir)]
    throws there, and so does the constructor of [GitLogger]. *)

From stdpp Require Import base option list strings gmap.

Set Default Proof Using "Type".

(** ** Data model *)

(** The value carried by a rejected promise or a thrown exception. *)
Inductive JsError : Type :=
| GitError (message : string).

(** [interface GitCommit] *)
Record GitCommit : Type := mkGitCommit {
  hash : string;
  author : string;
  date : string;
  message : string;
  diff : string
}.

(** [interface ApplyOptions]: every field is optional. *)
Record ApplyOptions : Type := mkApplyOptions {
  newAuthor : option string;
  newEmail : option string;
  newCommitter : option string;
  newCommitterEmail : option string
}.

(** The [options = {}] default of [applyToRepo]. *)
Definition noOptions : ApplyOptions := mkApplyOptions None None None None.

(** One element of [log.all], with the fields [simple-git] reports for the
    default log format. *)
Record LogEntry : Type := mkLogEntry {
  log_hash : string;
  log_date : string;
  log_message : string;
  log_refs : string;
  log_body : string;
  log_author_name : string;
  log_author_email : string
}.

(** A [SimpleGit] handle, the value [simpleGit(path)] gives when it
    returns: it is bound to a base directory and every command it runs is
    run there.  The call itself, which can throw, is [simpleGit_call]. *)
Record SimpleGit : Type := simpleGit { baseDir : string }.

(** [class GitLogger]: its three private fields. *)
Record GitLogger : Type := mkGitLogger {
  git : SimpleGit;
  currentTime : string;
  repoPath : string
}.

(** The logger the constructor gives when it returns, with [currentTime]
    already resolved by the caller.  The constructor itself, which can
    throw, is [GitLogger_new]. *)
Definition newGitLogger (repoPath currentTime : string) : GitLogger :=
  {| repoPath := repoPath; git := simpleGit repoPath; currentTime := currentTime |}.

(** JavaScript truthiness of an optional string: [undefined] and the empty
    string are falsy, every other string is truthy. *)
Definition truthy (o : option string) : bool :=
  match o with
  | None => false
  | Some s => negb (String.eqb s "")
  end.

(** The value interpolated by a template literal. *)
Definition interpolate (o : option string) : string :=
  match o with
  | None => "undefined"
  | Some s => s
  end.

(** ** Effects *)

(** What the program does to the outside, in the order it does it.  A call
    on a [SimpleGit] handle is recorded with the handle's base directory,
    its arguments and the way the awaited promise settled ([inl]: rejected,
    [inr]: fulfilled). *)
Inductive Event : Type :=
| GitCheckIsRepo (dir : string) (settled : JsError + bool)
| GitLog (dir : string) (settled : JsError + list LogEntry)
| GitShow (dir : string) (args : list string) (settled : JsError + string)
| GitRaw (dir : string) (args : list string) (settled : JsError + string)
| ConsoleLog (line : string)
| ConsoleError (line : string) (error : JsError)
| ProcessExit (code : Z).

(** The external tool as seen through [simple-git]: each method takes the
    base directory of the handle and the world, and gives the settled
    promise and the world after the call.  Of the value of [log()] only its
    [all] field is kept, the one the program reads.  [tool_folderExists] is
    the test the library makes before it hands out a handle; a directory
    that the tool finds to be a repository exists ([tool_repo_exists]). *)
Record GitTool (W : Type) : Type := mkGitTool {
  tool_folderExists : string -> W -> bool;
  tool_checkIsRepo : string -> W -> (JsError + bool) * W;
  tool_log : string -> W -> (JsError + list LogEntry) * W;
  tool_show : string -> list string -> W -> (JsError + string) * W;
  tool_raw : string -> list string -> W -> (JsError + string) * W;
  tool_repo_exists : forall dir w,
    (tool_checkIsRepo dir w).1 = inr true -> tool_folderExists dir w = true
}.
Arguments tool_folderExists {W}.
Arguments tool_repo_exists {W}.
Arguments tool_checkIsRepo {W}.
Arguments tool_log {W}.
Arguments tool_show {W}.
Arguments tool_raw {W}.

Record Outcome (W A : Type) : Type := mkOutcome {
  result : JsError + A;
  events : list Event;
  final : W
}.
Arguments mkOutcome {W A}.
Arguments result {W A}.
Arguments events {W A}.
Arguments final {W A}.

Definition M (W A : Type) : Type := W -> Outcome W A.

Definition ret {W A} (a : A) : M W A :=
  fun w => mkOutcome (inr a) [] w.

Definition bind {W A B} (m : M W A) (k : A -> M W B) : M W B :=
  fun w =>
    let o := m w in
    match result o with
    | inl e => mkOutcome (inl e) (events o) (final o)
    | inr a =>
        let o' := k a (final o) in
        mkOutcome (result o') (events o ++ events o') (final o')
    end.

(** [try { m } catch (error) { handler error }] *)
Definition try_catch {W A} (m : M W A) (handler : JsError -> M W A) : M W A :=
  fun w =>
    let o := m w in
    match result o with
    | inr a => o
    | inl e =>
        let o' := handler e (final o) in
        mkOutcome (result o') (events o ++ events o') (final o')
    end.

Declare Scope js_scope.
Delimit Scope js_scope with js.
Notation "x <- m ;; k" := (bind m (fun x => k))
  (at level 20, m at level 99, k at level 200, only parsing) : js_scope.
Notation "m ;; k" := (bind m (fun _ => k))
  (at level 100, k at level 200, only parsing, right associativity) : js_scope.
Open Scope js_scope.

(** [for (const x of xs) { body x }] *)
Fixpoint forOf {W A} (xs : list A) (body : A -> M W unit) : M W unit :=
  match xs with
  | [] => ret tt
  | x :: xs' => body x ;; forOf xs' body
  end.

(** A [for ... of] loop whose body updates a local variable. *)
Fixpoint forOfAcc {W A S} (xs : list A) (body : S -> A -> M W S) (s : S) : M W S :=
  match xs with
  | [] => ret s
  | x :: xs' => s' <- body s x ;; forOfAcc xs' body s'
  end.

Definition emit {W} (ev : Event) : M W unit :=
  fun w => mkOutcome (inr tt) [ev] w.

Definition console_log {W} (line : string) : M W unit := emit (ConsoleLog line).
Definition console_error {W} (line : string) (error : JsError) : M W unit :=
  emit (ConsoleError line error).
Definition process_exit {W} (code : Z) : M W unit := emit (ProcessExit code).

Section Program.

Context {W : Type}.
Variable tool : GitTool W.

(** The error [simpleGit(dir)] throws for a directory that does not
    exist. *)
Definition gitConstructError : JsError :=
  GitError "Cannot use simple-git on a directory that does not exist".

(** The call [simpleGit(dir)]: it tests the directory, makes no call to the
    tool, and throws at once when the directory does not exist. *)
Definition simpleGit_call (dir : string) : M W SimpleGit :=
  fun w =>
    if tool_folderExists tool dir w
    then mkOutcome (inr (simpleGit dir)) [] w
    else mkOutcome (inl gitConstructError) [] w.

(** [new GitLogger(repoPath, currentTime)], lines 26 to 30. *)
Definition GitLogger_new (repoPath currentTime : string) : M W GitLogger :=
  git <- simpleGit_call repoPath ;;
  ret {| repoPath := repoPath; git := git; currentTime := currentTime |}.

Definition checkIsRepo (g : SimpleGit) : M W bool :=
  fun w =>
    let '(r, w') := tool_checkIsRepo tool (baseDir g) w in
    mkOutcome r [GitCheckIsRepo (baseDir g) r] w'.

Definition log (g : SimpleGit) : M W (list LogEntry) :=
  fun w =>
    let '(r, w') := tool_log tool (baseDir g) w in
    mkOutcome r [GitLog (baseDir g) r] w'.

Definition show (g : SimpleGit) (args : list string) : M W string :=
  fun w =>
    let '(r, w') := tool_show tool (baseDir g) args w in
    mkOutcome r [GitShow (baseDir g) args r] w'.

Definition raw (g : SimpleGit) (args : list string) : M W string :=
  fun w =>
    let '(r, w') := tool_raw tool (baseDir g) args w in
    mkOutcome r [GitRaw (baseDir g) args r] w'.

(** ** [GitLogger.getCommits] *)

(** The body of the loop over [log.all]: one [show] per entry, then
    [commits.push]. *)
Definition getCommits_body (this : GitLogger)
    (commits : list GitCommit) (commit : LogEntry) : M W (list GitCommit) :=
  diff <- show (git this) [log_hash commit] ;;
  ret (commits ++ [ {| hash := log_hash commit;
                       author := log_author_name commit;
                       date := log_date commit;
                       message := log_message commit;
                       diff := diff |} ]).

Definition getCommits (this : GitLogger) : M W (list GitCommit) :=
  try_catch
    (isRepo <- checkIsRepo (git this) ;;
     if negb isRepo then
       console_log ("Not a git repository: " +:+ repoPath this) ;;
       ret []
     else
       all <- log (git this) ;;
       commits <- forOfAcc all (getCommits_body this) [] ;;
       ret commits)
    (fun error =>
       console_error "Error reading git history:" error ;;
       ret []).

(** ** [GitLogger.printCommitHistory] *)

Definition separator : string := "----------------------------------------".
Definition newline : string := String (Ascii.ascii_of_nat 10) "".

Definition printCommit (commit : GitCommit) : M W unit :=
  console_log separator ;;
  console_log ("Commit: " +:+ hash commit) ;;
  console_log ("Author: " +:+ author commit) ;;
  console_log ("Date: " +:+ date commit) ;;
  console_log ("Message: " +:+ message commit) ;;
  console_log (newline +:+ "Diff:" +:+ newline) ;;
  console_log (diff commit) ;;
  console_log (separator +:+ newline).

Definition printCommitHistory (this : GitLogger) : M W unit :=
  commits <- getCommits this ;;
  console_log ("Git History for " +:+ repoPath this +:+ " as of "
               +:+ currentTime this +:+ ":" +:+ newline) ;;
  if Nat.eqb (length commits) 0 then
    console_log "No commits found or not a git repository."
  else
    forOf commits printCommit.

(** ** [GitLogger.applyToRepo] *)

(** The committer environment of lines 103 to 108: an empty object, filled
    when both committer fields are truthy. *)
Definition committerEnv (options : ApplyOptions) : gmap string string :=
  let env : gmap string string := ∅ in
  if truthy (newCommitter options) && truthy (newCommitterEmail options) then
    <["GIT_COMMITTER_EMAIL" := interpolate (newCommitterEmail options)]>
      (<["GIT_COMMITTER_NAME" := interpolate (newCommitter options)]> env)
  else env.

Definition patchPathOf (this : GitLogger) (commit : GitCommit) : string :=
  repoPath this +:+ "/temp_" +:+ hash commit +:+ ".patch".

Definition formatPatchArgs (this : GitLogger) (commit : GitCommit) : list string :=
  ["format-patch"; "--stdout"; "-1";
   "--full-index"; "--binary"; "--date-order";
   hash commit; "-o"; repoPath this].

Definition fixedAmFlags : list string :=
  ["--committer-date-is-author-date";
   "--ignore-space-change";
   "--ignore-whitespace";
   "--3way"].

(** [amArgs] as it stands when it is handed to [targetGit.raw]: the initial
    array, the optional [push] of the author override, the [push] of the
    patch path. *)
Definition amArgsOf (options : ApplyOptions) (patchPath : string) : list string :=
  let amArgs := fixedAmFlags in
  let amArgs :=
    if truthy (newAuthor options) && truthy (newEmail options) then
      amArgs ++ ["--author";
                 interpolate (newAuthor options) +:+ " <"
                 +:+ interpolate (newEmail options) +:+ ">"]
    else amArgs in
  amArgs ++ [patchPath].

Definition authorInfoOf (options : ApplyOptions) (commit : GitCommit) : string :=
  if truthy (newAuthor options)
  then "new author: " +:+ interpolate (newAuthor options)
  else "original author: " +:+ author commit.

Definition committerInfoOf (options : ApplyOptions) : string :=
  if truthy (newCommitter options)
  then "new committer: " +:+ interpolate (newCommitter options)
  else "original committer".

Definition applyingLine (commit : GitCommit) : string :=
  "Applying commit: " +:+ message commit +:+ " (" +:+ date commit +:+ ")".

Definition successLine (options : ApplyOptions) (commit : GitCommit) : string :=
  "✓ Successfully applied with " +:+ authorInfoOf options commit +:+ ", "
  +:+ committerInfoOf options +:+ " and original date: " +:+ date commit
  +:+ newline.

Definition failureLine (commit : GitCommit) : string :=
  "Failed to apply commit " +:+ hash commit +:+ " from " +:+ date commit +:+ ":".

(** The body of the loop over [commits], lines 113 to 153. *)
Definition applyToRepo_body (this : GitLogger) (targetGit : SimpleGit)
    (options : ApplyOptions) (commit : GitCommit) : M W unit :=
  try_catch
    (let patchPath := patchPathOf this commit in
     _ <- raw (git this) (formatPatchArgs this commit) ;;
     let amArgs := amArgsOf options patchPath in
     console_log (applyingLine commit) ;;
     _ <- raw targetGit amArgs ;;
     _ <- raw targetGit ["clean"; "-f"; patchPath] ;;
     console_log (successLine options commit))
    (fun error =>
       console_error (failureLine commit) error ;;
       _ <- raw targetGit ["am"; "--abort"] ;;
       ret tt).

Definition applyToRepo (this : GitLogger) (targetRepoPath : string)
    (options : ApplyOptions) : M W unit :=
  commits <- getCommits this ;;
  if Nat.eqb (length commits) 0 then
    console_log "No commits to apply."
  else
    targetGit <- simpleGit_call targetRepoPath ;;
    isRepo <- checkIsRepo targetGit ;;
    if negb isRepo then
      console_log ("Target is not a git repository: " +:+ targetRepoPath)
    else
      let env := committerEnv options in
      console_log ("Applying commits to " +:+ targetRepoPath +:+ "..." +:+ newline) ;;
      forOf commits (applyToRepo_body this targetGit options).

(** ** The command-line entry point *)

(** [program.opts()]: [path] is required, the rest is optional. *)
Record ProgramOpts : Type := mkProgramOpts {
  opt_path : string;
  opt_time : option string;
  opt_apply : option string;
  opt_author : option string;
  opt_email : option string;
  opt_committer : option string;
  opt_committerEmail : option string
}.

(** Lines 180 to 188: each identity is copied only when both of its flags
    are truthy. *)
Definition applyOptionsOf (options : ProgramOpts) : ApplyOptions :=
  let applyOptions := noOptions in
  let applyOptions :=
    if truthy (opt_author options) && truthy (opt_email options) then
      {| newAuthor := opt_author options;
         newEmail := opt_email options;
         newCommitter := newCommitter applyOptions;
         newCommitterEmail := newCommitterEmail applyOptions |}
    else applyOptions in
  let applyOptions :=
    if truthy (opt_committer options) && truthy (opt_committerEmail options) then
      {| newAuthor := newAuthor applyOptions;
         newEmail := newEmail applyOptions;
         newCommitter := opt_committer options;
         newCommitterEmail := opt_committerEmail options |}
    else applyOptions in
  applyOptions.

(** The script body after option parsing.  [now] is what
    [new Date().toISOString()] gives, used when [--time] is absent.  The
    logger is made outside the two handlers: when its constructor throws,
    the script ends there with that exception uncaught. *)
Definition main (now : string) (options : ProgramOpts) : M W unit :=
  gitLogger <- GitLogger_new (opt_path options) (default now (opt_time options)) ;;
  if truthy (opt_apply options) then
    let applyOptions := applyOptionsOf options in
    try_catch
      (applyToRepo gitLogger (interpolate (opt_apply options)) applyOptions)
      (fun error =>
         console_error "Failed to apply commits:" error ;;
         process_exit 1)
  else
    try_catch
      (printCommitHistory gitLogger)
      (fun error =>
         console_error "Failed to print git history:" error ;;
         process_exit 1).

(** The entry point of the earlier version of the file: [--path] and
    [--time] only, and the history is always printed. *)
Record ProgramOpts0 : Type := mkProgramOpts0 {
  opt0_path : string;
  opt0_time : option string
}.

Definition main0 (now : string) (options : ProgramOpts0) : M W unit :=
  gitLogger <-
    GitLogger_new (opt0_path options) (default now (opt0_time options)) ;;
  try_catch
    (printCommitHistory gitLogger)
    (fun error =>
       console_error "Failed to print git history:" error ;;
       process_exit 1).

End Program.

(** ** Vocabulary of the properties *)

(** The [show] event of a record that made it into the result. *)
Definition shown (dir : string) (c : GitCommit) : Event :=
  GitShow dir [hash c] (inr (diff c)).

(** A record copies these four fields of its log entry. *)
Definition fromEntry (entry : LogEntry) (c : GitCommit) : Prop :=
  hash c = log_hash entry /\ author c = log_author_name entry /\
  date c = log_date entry /\ message c = log_message entry.

(** How a run of [getCommits] can go. *)
Inductive ReaderRun (this : GitLogger) : list Event -> list GitCommit -> Prop :=
| run_check_rejected e :
    ReaderRun this
      [GitCheckIsRepo (baseDir (git this)) (inl e);
       ConsoleError "Error reading git history:" e] []
| run_not_a_repository :
    ReaderRun this
      [GitCheckIsRepo (baseDir (git this)) (inr false);
       ConsoleLog ("Not a git repository: " +:+ repoPath this)] []
| run_log_rejected e :
    ReaderRun this
      [GitCheckIsRepo (baseDir (git this)) (inr true);
       GitLog (baseDir (git this)) (inl e);
       ConsoleError "Error reading git history:" e] []
| run_show_rejected all cs entry e :
    In entry all ->
    ReaderRun this
      (GitCheckIsRepo (baseDir (git this)) (inr true)
       :: GitLog (baseDir (git this)) (inr all)
       :: map (shown (baseDir (git this))) cs
       ++ [GitShow (baseDir (git this)) [log_hash entry] (inl e);
           ConsoleError "Error reading git history:" e]) []
| run_complete all cs :
    Forall2 fromEntry all cs ->
    ReaderRun this
      (GitCheckIsRepo (baseDir (git this)) (inr true)
       :: GitLog (baseDir (git this)) (inr all)
       :: map (shown (baseDir (git this))) cs) cs.

(** The error of a call on a [SimpleGit] handle that was rejected. *)
Definition rejectedWith (ev : Event) : option JsError :=
  match ev with
  | GitCheckIsRepo _ (inl e) | GitLog _ (inl e) | GitShow _ _ (inl e) | GitRaw _ _ (inl e) => Some e
  | _ => None
  end.

(** The calls on [SimpleGit] handles among the events: everything but the
    console and the exit. *)
Definition isGitCall (ev : Event) : bool :=
  match ev with
  | ConsoleLog _ | ConsoleError _ _ | ProcessExit _ => false
  | _ => true
  end.

Definition gitCalls (evs : list Event) : list Event := List.filter isGitCall evs.

(** The options with the committer override taken out. *)
Definition withoutCommitter (options : ApplyOptions) : ApplyOptions :=
  {| newAuthor := newAuthor options;
     newEmail := newEmail options;
     newCommitter := None;
     newCommitterEmail := None |}.

(** The eight [console.log] calls that print one commit. *)
Definition rendered (c : GitCommit) : list Event :=
  [ConsoleLog "----------------------------------------";
   ConsoleLog ("Commit: " +:+ hash c);
   ConsoleLog ("Author: " +:+ author c);
   ConsoleLog ("Date: " +:+ date c);
   ConsoleLog ("Message: " +:+ message c);
   ConsoleLog (newline +:+ "Diff:" +:+ newline);
   ConsoleLog (diff c);
   ConsoleLog ("----------------------------------------" +:+ newline)].

(** Whether a string has a slash in it. *)
Fixpoint hasSlash (s : string) : bool :=
  match s with
  | EmptyString => false
  | String a s' => Ascii.eqb a (Ascii.ascii_of_nat 47) || hasSlash s'
  end.

(** The turns of a [for ... of] loop that are started, each with the world
    it starts in: the loop stops after the first turn that throws. *)
Fixpoint turns {W A} (body : A -> M W unit) (xs : list A) (w : W) : list (A * W) :=
  match xs with
  | [] => []
  | x :: xs' =>
      (x, w) :: match result (body x w) with
                | inl _ => []
                | inr _ => turns body xs' (final (body x w))
                end
  end.

(** A call that only reads the repository at [dir]. *)
Definition readsOnly (dir : string) (ev : Event) : Prop :=
  (exists r, ev = GitCheckIsRepo dir r) \/
  (exists r, ev = GitLog dir r) \/
  (exists args r, ev = GitShow dir args r).

(** The [show] calls among the events, in order, each with the way it
    settled. *)
Definition isShow (ev : Event) : bool :=
  match ev with
  | GitShow _ _ _ => true
  | _ => false
  end.

Definition showEvents (evs : list Event) : list Event := List.filter isShow evs.

(** The argument lists of the [raw] calls that start with [format-patch],
    in order. *)
Definition formatPatchCalls (evs : list Event) : list (list string) :=
  flat_map (fun ev =>
              match ev with
              | GitRaw _ ("format-patch" :: rest) _ => ["format-patch" :: rest]
              | _ => []
              end) evs.

(** What a turn of the replay loop for [commit] can do. *)
Definition turnEvent (this : GitLogger) (target : string) (options : ApplyOptions)
    (commit : GitCommit) (ev : Event) : Prop :=
  (exists r, ev = GitRaw (baseDir (git this)) (formatPatchArgs this commit) r) \/
  ev = ConsoleLog (applyingLine commit) \/
  (exists r, ev = GitRaw target (amArgsOf options (patchPathOf this commit)) r) \/
  (exists r, ev = GitRaw target ["clean"; "-f"; patchPathOf this commit] r) \/
  ev = ConsoleLog (successLine options commit) \/
  (exists e, ev = ConsoleError (failureLine commit) e) \/
  (exists r, ev = GitRaw target ["am"; "--abort"] r).

Section Caught.

Context {W : Type}.
Variable tool : GitTool W.

(** The [catch] block of the loop body, entered with [error] after the
    events [before]: the failure line, then [am --abort] on the target.
    The block returns when the abort is fulfilled and throws when it is
    rejected. *)
Definition caught (targetGit : SimpleGit) (commit : GitCommit)
    (before : list Event) (error : JsError) (w : W) : Outcome W unit :=
  let '(r, w') := tool_raw tool (baseDir targetGit) ["am"; "--abort"] w in
  mkOutcome
    (match r with inl e' => inl e' | inr _ => inr tt end)
    (before ++ [ConsoleError (failureLine commit) error;
                GitRaw (baseDir targetGit) ["am"; "--abort"] r])
    w'.

End Caught.

(** ** A scripted tool

    A tool for the examples: its answers are fixed by a script and its
    world counts the calls made so far. *)
Record Script : Type := mkScript {
  script_repos : list string;
  script_folders : list string;
  script_log : JsError + list LogEntry;
  script_show : list string -> JsError + string;
  script_raw : string -> list string -> JsError + string
}.

(** The scripted tool keeps the law of the interface: its repositories are
    among the directories that exist. *)
Definition scripted_repo_exists (repos folders : list string)
    (dir : string) (n : nat)
    (H : (inr (existsb (String.eqb dir) repos) : JsError + bool, S n).1 = inr true) :
  existsb (String.eqb dir) repos || existsb (String.eqb dir) folders = true.
Proof. cbn in H. injection H as ->. reflexivity. Qed.

Definition scripted (s : Script) : GitTool nat :=
  {| tool_folderExists := fun dir n =>
       existsb (String.eqb dir) (script_repos s)
       || existsb (String.eqb dir) (script_folders s);
     tool_checkIsRepo := fun dir n => (inr (existsb (String.eqb dir) (script_repos s)), S n);
     tool_log := fun dir n => (script_log s, S n);
     tool_show := fun dir args n => (script_show s args, S n);
     tool_raw := fun dir args n => (script_raw s dir args, S n);
     tool_repo_exists := scripted_repo_exists (script_repos s) (script_folders s) |}.

Definition entryA : LogEntry :=
  {| log_hash := "b2c4e6f"; log_date := "2024-05-02T10:15:00+02:00";
     log_message := "Add parser"; log_refs := "HEAD -> main"; log_body := "";
     log_author_name := "Ada"; log_author_email := "ada@example.org" |}.

Definition entryB : LogEntry :=
  {| log_hash := "a1b3c5d"; log_date := "2024-05-01T09:00:00+02:00";
     log_message := "Initial commit"; log_refs := ""; log_body := "";
     log_author_name := "Grace"; log_author_email := "grace@example.org" |}.

Definition commitA : GitCommit :=
  {| hash := "b2c4e6f"; author := "Ada"; date := "2024-05-02T10:15:00+02:00";
     message := "Add parser"; diff := "diff of b2c4e6f" |}.

Definition commitB : GitCommit :=
  {| hash := "a1b3c5d"; author := "Grace"; date := "2024-05-01T09:00:00+02:00";
     message := "Initial commit"; diff := "diff of a1b3c5d" |}.

Definition showDiff (args : list string) : JsError + string :=
  match args with
  | [h] => inr ("diff of " +:+ h)
  | _ => inl (GitError "fatal: bad revision")
  end.

(** Two repositories, two commits, every command fulfilled. *)
Definition healthy : Script :=
  {| script_repos := ["/src"; "/dst"];
     script_folders := ["/tmp"];
     script_log := inr [entryA; entryB];
     script_show := showDiff;
     script_raw := fun _ _ => inr "" |}.

(** As [healthy], but every [raw] command is rejected. *)
Definition rawRejected : Script :=
  {| script_repos := ["/src"; "/dst"];
     script_folders := ["/tmp"];
     script_log := inr [entryA; entryB];
     script_show := showDiff;
     script_raw := fun _ _ => inl (GitError "fatal: git exited with code 128") |}.

(** As [healthy], but the patch of [commitA] does not apply and the clean-up
    after [commitB] is rejected; [am --abort] is fulfilled. *)
Definition conflicting : Script :=
  {| script_repos := ["/src"; "/dst"];
     script_folders := ["/tmp"];
     script_log := inr [entryA; entryB];
     script_show := showDiff;
     script_raw := fun _ args =>
       match args with
       | "--committer-date-is-author-date" :: _ =>
           if existsb (String.eqb "/src/temp_b2c4e6f.patch") args
           then inl (GitError "error: patch failed")
           else inr ""
       | ["clean"; _; "/src/temp_a1b3c5d.patch"] =>
           inl (GitError "fatal: outside repository")
       | _ => inr ""
       end |}.


(** As [healthy], but the second [show] is rejected. *)
Definition showRejected : Script :=
  {| script_repos := ["/src"; "/dst"];
     script_folders := ["/tmp"];
     script_log := inr [entryA; entryB];
     script_show := fun args =>
       match args with
       | ["a1b3c5d"] => inl (GitError "fatal: bad object")
       | _ => showDiff args
       end;
     script_raw := fun _ _ => inr "" |}.

(** An identity override with a name and no e-mail. *)
Definition namesOnly : ApplyOptions :=
  {| newAuthor := Some "Eve"; newEmail := None;
     newCommitter := Some "Mallory"; newCommitterEmail := None |}.

(** A full identity override. *)
Definition fullOverride : ApplyOptions :=
  {| newAuthor := Some "Eve"; newEmail := Some "eve@example.org";
     newCommitter := Some "Mallory"; newCommitterEmail := Some "mallory@example.org" |}.

(** ** Unfolding one step of a loop *)

Lemma bind_inr {W A B} (m : M W A) (k : A -> M W B) w a :
  result (m w) = inr a ->
  bind m k w =
  mkOutcome (result (k a (final (m w))))
            (events (m w) ++ events (k a (final (m w))))
            (final (k a (final (m w)))).
Proof. intros H. unfold bind. rewrite H. reflexivity. Qed.

Lemma forOfAcc_cons {W A S} (x : A) (xs : list A) (body : S -> A -> M W S) s w :
  forOfAcc (x :: xs) body s w =
  match result (body s x w) with
  | inl e => mkOutcome (inl e) (events (body s x w)) (final (body s x w))
  | inr s' =>
      let rest := forOfAcc xs body s' (final (body s x w)) in
      mkOutcome (result rest) (events (body s x w) ++ events rest) (final rest)
  end.
Proof. reflexivity. Qed.

Lemma forOf_cons {W A} (x : A) (xs : list A) (body : A -> M W unit) w :
  forOf (x :: xs) body w =
  match result (body x w) with
  | inl e => mkOutcome (inl e) (events (body x w)) (final (body x w))
  | inr _ =>
      let rest := forOf xs body (final (body x w)) in
      mkOutcome (result rest) (events (body x w) ++ events rest) (final rest)
  end.
Proof. reflexivity. Qed.

(** The events of a loop are those of its turns, one after the other. *)
Lemma forOf_events {W A} (body : A -> M W unit) (xs : list A) (w : W) :
  events (forOf xs body w) =
  flat_map (fun turn => events (body turn.1 turn.2)) (turns body xs w).
Proof.
  revert w. induction xs as [|x xs IH]; intros w; [reflexivity|].
  rewrite forOf_cons. cbn [turns flat_map fst snd].
  destruct (result (body x w)) as [e|[]]; cbn [events flat_map].
  - by rewrite app_nil_r.
  - by rewrite IH.
Qed.

(** ** Facts on strings *)

Lemma length_append (a b : string) :
  String.length (a +:+ b) = String.length a + String.length b.
Proof. induction a as [|c a IH]; simpl; [reflexivity | by rewrite IH]. Qed.

Lemma hasSlash_append (a b : string) :
  hasSlash (a +:+ b) = hasSlash a || hasSlash b.
Proof.
  induction a as [|c a IH]; simpl; [reflexivity|].
  rewrite IH. apply orb_assoc.
Qed.

Lemma truthy_Some (o : option string) :
  truthy o = true <-> exists s, o = Some s /\ s <> "".
Proof.
  destruct o as [s|]; simpl.
  - rewrite negb_true_iff, String.eqb_neq. split.
    + intros H. by exists s.
    + intros (s' & [= <-] & H). exact H.
  - split; [discriminate | intros (s & H & _); discriminate H].
Qed.

(** ** Runs of the reader *)

Section ReaderRuns.

Context {W : Type}.
Variable tool : GitTool W.

(** One turn of the loop over [log.all], in terms of what the tool answers. *)
Lemma getCommits_body_eq this acc entry w :
  getCommits_body tool this acc entry w =
  let dir := baseDir (git this) in
  let '(r, w') := tool_show tool dir [log_hash entry] w in
  mkOutcome
    (match r with
     | inl e => inl e
     | inr d => inr (acc ++ [ {| hash := log_hash entry;
                                 author := log_author_name entry;
                                 date := log_date entry;
                                 message := log_message entry;
                                 diff := d |} ])
     end)
    [GitShow dir [log_hash entry] r] w'.
Proof.
  unfold getCommits_body, show, bind, ret. cbn beta zeta.
  destruct (tool_show tool (baseDir (git this)) [log_hash entry] w) as [[e|d] w1];
    simpl; reflexivity.
Qed.

(** The loop over [log.all] either runs to its end, with one fulfilled
    [show] per entry, or stops at the first [show] that is rejected. *)
Lemma getCommits_loop this all acc w :
  let out := forOfAcc all (getCommits_body tool this) acc w in
  let dir := baseDir (git this) in
  (exists cs, result out = inr (acc ++ cs) /\ Forall2 fromEntry all cs /\
              events out = map (shown dir) cs) \/
  (exists cs e entry w', result out = inl e /\ In entry all /\
              (tool_show tool dir [log_hash entry] w').1 = inl e /\
              events out = map (shown dir) cs ++ [GitShow dir [log_hash entry] (inl e)]).
Proof.
  revert acc w. induction all as [|entry all IH]; intros acc w; cbv zeta.
  - left. exists []. simpl. rewrite app_nil_r. repeat split; constructor.
  - rewrite forOfAcc_cons, getCommits_body_eq. cbv zeta.
    destruct (tool_show tool (baseDir (git this)) [log_hash entry] w)
      as [[e|d] w1] eqn:Hshow; cbn [result events final].
    + right. exists [], e, entry, w. rewrite Hshow. repeat split; simpl; auto.
    + set (c := {| hash := log_hash entry; author := log_author_name entry;
                   date := log_date entry; message := log_message entry;
                   diff := d |}).
      destruct (IH (acc ++ [c]) w1)
        as [(cs & Hres & Hall & Hev)|(cs & e & en & w' & Hres & Hin & Hrej & Hev)].
      * left. exists (c :: cs). rewrite Hres, Hev, <- app_assoc. simpl.
        repeat split; auto. constructor; auto. repeat split; reflexivity.
      * right. exists (c :: cs), e, en, w'. rewrite Hres, Hev. simpl. auto.
Qed.

Lemma getCommits_run this w :
  exists cs, result (getCommits tool this w) = inr cs /\
             ReaderRun this (events (getCommits tool this w)) cs.
Proof.
  unfold getCommits. unfold try_catch, bind, checkIsRepo, log, console_log,
    console_error, emit, ret. cbn beta.
  destruct (tool_checkIsRepo tool (baseDir (git this)) w) as [[e|[|]] w1];
    cbn [result events final negb app].
  - exists []. split; [reflexivity | constructor].
  - destruct (tool_log tool (baseDir (git this)) w1) as [[e|all] w2];
      cbn [result events final app].
    + exists []. split; [reflexivity | constructor].
    + destruct (getCommits_loop this all [] w2)
        as [(cs & Hres & Hall & Hev)|(cs & e & en & w' & Hres & Hin & _ & Hev)];
        rewrite Hres, Hev; cbn [result events final app].
      * exists cs. rewrite app_nil_r. split; [reflexivity | by constructor].
      * exists []. split; [reflexivity |].
        rewrite <- app_assoc. simpl. by econstructor.
  - exists []. split; [reflexivity | constructor].
Qed.

End ReaderRuns.

(** ** Runs of the replayer *)

Section ReplayerRuns.

Context {W : Type}.
Variable tool : GitTool W.

(** One turn of the loop over [commits], in terms of what the tool answers
    to the three commands of the [try] block. *)
Lemma applyToRepo_body_eq this targetGit options commit w :
  applyToRepo_body tool this targetGit options commit w =
  let src := baseDir (git this) in
  let tgt := baseDir targetGit in
  let patchPath := patchPathOf this commit in
  let '(r1, w1) := tool_raw tool src (formatPatchArgs this commit) w in
  let step1 := GitRaw src (formatPatchArgs this commit) r1 in
  match r1 with
  | inl e => caught tool targetGit commit [step1] e w1
  | inr _ =>
      let '(r3, w3) := tool_raw tool tgt (amArgsOf options patchPath) w1 in
      let step3 := GitRaw tgt (amArgsOf options patchPath) r3 in
      match r3 with
      | inl e =>
          caught tool targetGit commit
            [step1; ConsoleLog (applyingLine commit); step3] e w3
      | inr _ =>
          let '(r4, w4) := tool_raw tool tgt ["clean"; "-f"; patchPath] w3 in
          let step4 := GitRaw tgt ["clean"; "-f"; patchPath] r4 in
          match r4 with
          | inl e =>
              caught tool targetGit commit
                [step1; ConsoleLog (applyingLine commit); step3; step4] e w4
          | inr _ =>
              mkOutcome (inr tt)
                [step1; ConsoleLog (applyingLine commit); step3; step4;
                 ConsoleLog (successLine options commit)] w4
          end
      end
  end.
Proof.
  unfold applyToRepo_body. unfold try_catch, bind, raw, console_log,
    console_error, emit, ret, caught. cbn beta zeta.
  destruct (tool_raw tool (baseDir (git this)) (formatPatchArgs this commit) w)
    as [[e1|s1] w1]; cbn [result events final app].
  { destruct (tool_raw tool (baseDir targetGit) ["am"; "--abort"] w1)
      as [[e'|s'] w']; reflexivity. }
  destruct (tool_raw tool (baseDir targetGit)
              (amArgsOf options (patchPathOf this commit)) w1)
    as [[e3|s3] w3]; cbn [result events final app].
  { destruct (tool_raw tool (baseDir targetGit) ["am"; "--abort"] w3)
      as [[e'|s'] w']; reflexivity. }
  destruct (tool_raw tool (baseDir targetGit)
              ["clean"; "-f"; patchPathOf this commit] w3)
    as [[e4|s4] w4]; cbn [result events final app].
  { destruct (tool_raw tool (baseDir targetGit) ["am"; "--abort"] w4)
      as [[e'|s'] w']; reflexivity. }
  reflexivity.
Qed.

End ReplayerRuns.

(** ** Properties of the reader *)

Section ReaderClaims.

Context {W : Type}.
Variable tool : GitTool W.

Lemma fromEntry_fields all cs :
  Forall2 fromEntry all cs ->
  length cs = length all /\
  map hash cs = map log_hash all /\
  map author cs = map log_author_name all /\
  map date cs = map log_date all /\
  map message cs = map log_message all.
Proof.
  induction 1 as [|entry c all cs (Hh & Ha & Hd & Hm) _ IH]; simpl.
  - repeat split.
  - destruct IH as (? & ? & ? & ? & ?). repeat split; congruence.
Qed.

(** C1.  When the path is a repository whose log is retrieved and no
    per-commit [show] of the run is rejected, [getCommits] returns one
    record per log entry, in the order of the log: the hash, author, date
    and message of each record are those of its entry, and after the
    repository check and the log the calls made are one [show] per record,
    on that record's hash, whose answer is that record's diff. *)
Theorem getCommits_one_record_per_log_entry
    (path time : string) (w : W) (all : list LogEntry) :
  (tool_checkIsRepo tool path w).1 = inr true ->
  (tool_log tool path (tool_checkIsRepo tool path w).2).1 = inr all ->
  (forall args e,
     ~ In (GitShow path args (inl e))
          (events (getCommits tool (newGitLogger path time) w))) ->
  exists commits,
    result (getCommits tool (newGitLogger path time) w) = inr commits /\
    length commits = length all /\
    map hash commits = map log_hash all /\
    map author commits = map log_author_name all /\
    map date commits = map log_date all /\
    map message commits = map log_message all /\
    events (getCommits tool (newGitLogger path time) w) =
      GitCheckIsRepo path (inr true)
      :: GitLog path (inr all)
      :: map (fun c => GitShow path [hash c] (inr (diff c))) commits.
Proof.
  intros Hrepo Hlog. unfold getCommits.
  unfold try_catch, bind, checkIsRepo, log, console_log, console_error, emit, ret.
  cbn beta. cbn [newGitLogger git baseDir].
  destruct (tool_checkIsRepo tool path w) as [r0 w1].
  cbn [fst snd] in Hrepo, Hlog. subst r0. cbn [result events final negb app].
  destruct (tool_log tool path w1) as [r1 w2].
  cbn [fst] in Hlog. subst r1. cbn [result events final app].
  destruct (getCommits_loop tool (newGitLogger path time) all [] w2)
    as [(cs & Hres & Hall & Hev)|(cs & e & en & w' & Hres & Hin & Hrej & Hev)];
    rewrite Hres, Hev; cbn [result events final app newGitLogger git baseDir].
  - intros _. exists cs. rewrite app_nil_r.
    destruct (fromEntry_fields _ _ Hall) as (? & ? & ? & ? & ?).
    repeat split; auto.
  - intros Hshow. exfalso. apply (Hshow [log_hash en] e).
    right. right. apply in_or_app. left. apply in_or_app. right. left.
    reflexivity.
Qed.

Lemma shown_not_rejected dir cs ev :
  In ev (map (shown dir) cs) -> rejectedWith ev = None /\ isGitCall ev = true.
Proof.
  intros Hin. apply in_map_iff in Hin as (c & <- & _). split; reflexivity.
Qed.

Lemma shown_is_show dir cs ev :
  In ev (map (shown dir) cs) -> exists c, ev = GitShow dir [hash c] (inr (diff c)).
Proof.
  intros Hin. apply in_map_iff in Hin as (c & <- & _). by exists c.
Qed.

(** C5.  [getCommits] always returns and never throws.  When the path is
    not a repository the result is empty and the condition is printed; when
    any call is rejected (the repository check, the log or one of the
    [show] lookups) the result is empty, whatever had been collected, and
    the last thing the run does is print the error. *)
Theorem getCommits_never_throws (path time : string) (w : W) :
  exists commits,
    result (getCommits tool (newGitLogger path time) w) = inr commits /\
    (In (GitCheckIsRepo path (inr false))
        (events (getCommits tool (newGitLogger path time) w)) ->
     commits = [] /\
     In (ConsoleLog ("Not a git repository: " +:+ path))
        (events (getCommits tool (newGitLogger path time) w))) /\
    (forall ev e,
       In ev (events (getCommits tool (newGitLogger path time) w)) ->
       rejectedWith ev = Some e ->
       commits = [] /\
       last (events (getCommits tool (newGitLogger path time) w)) =
         Some (ConsoleError "Error reading git history:" e)).
Proof.
  destruct (getCommits_run tool (newGitLogger path time) w) as (cs & Hres & Hrun).
  exists cs. split; [exact Hres|].
  remember (events (getCommits tool (newGitLogger path time) w)) as evs eqn:Hevs.
  clear Hres Hevs.
  destruct Hrun as [e0| |e0|all cs entry e0 Hentry|all cs Hall];
    cbn [newGitLogger git baseDir repoPath].
  - split.
    + intros [H|[H|[]]]; discriminate H.
    + intros ev e [<-|[<-|[]]] Hrej; simpl in Hrej; [|discriminate].
      injection Hrej as <-. split; reflexivity.
  - split.
    + intros _. split; [reflexivity|]. right. left. reflexivity.
    + intros ev e [<-|[<-|[]]] Hrej; discriminate Hrej.
  - split.
    + intros [H|[H|[H|[]]]]; discriminate H.
    + intros ev e [<-|[<-|[<-|[]]]] Hrej; simpl in Hrej; try discriminate.
      injection Hrej as <-. split; reflexivity.
  - split.
    + intros [H|[H|H]]; try discriminate H.
      apply in_app_or in H as [H|[H|[H|[]]]]; try discriminate H.
      apply shown_is_show in H as [c H]. discriminate H.
    + intros ev e Hin Hrej.
      assert (e = e0) as ->.
      { destruct Hin as [<-|[<-|Hin]]; try discriminate Hrej.
        apply in_app_or in Hin as [Hin|[<-|[<-|[]]]]; simpl in Hrej.
        - apply shown_not_rejected in Hin as [Hin _]. congruence.
        - congruence.
        - discriminate. }
      split; [reflexivity|].
      change (?a :: ?b :: ?l ++ [?x; ?y]) with ([a; b] ++ l ++ [x] ++ [y]).
      rewrite !app_assoc. apply last_snoc.
  - split.
    + intros [H|[H|H]]; try discriminate H.
      apply shown_is_show in H as [c H]. discriminate H.
    + intros ev e [<-|[<-|Hin]] Hrej; try discriminate Hrej.
      apply shown_not_rejected in Hin as [Hin _]. congruence.
Qed.

End ReaderClaims.

(** ** Properties of the printer *)

Section PrinterClaims.

Context {W : Type}.
Variable tool : GitTool W.

Lemma printCommit_eq (c : GitCommit) (w : W) :
  printCommit c w = mkOutcome (inr tt) (rendered c) w.
Proof. reflexivity. Qed.

Lemma forOf_printCommit (commits : list GitCommit) (w : W) :
  forOf commits printCommit w = mkOutcome (inr tt) (flat_map rendered commits) w.
Proof.
  induction commits as [|c commits IH].
  - reflexivity.
  - rewrite forOf_cons, printCommit_eq. cbn [result events final].
    rewrite IH. reflexivity.
Qed.

(** The only line a run of [getCommits] prints with [console.log]. *)
Lemma ReaderRun_console_lines this evs cs line :
  ReaderRun this evs cs -> In (ConsoleLog line) evs ->
  line = "Not a git repository: " +:+ repoPath this.
Proof.
  intros Hrun Hin.
  destruct Hrun as [e0| |e0|all cs entry e0 Hentry|all cs Hall].
  - destruct Hin as [H|[H|[]]]; discriminate H.
  - destruct Hin as [H|[H|[]]]; [discriminate H|]. by injection H as <-.
  - destruct Hin as [H|[H|[H|[]]]]; discriminate H.
  - destruct Hin as [H|[H|H]]; try discriminate H.
    apply in_app_or in H as [H|[H|[H|[]]]]; try discriminate H.
    apply shown_is_show in H as [c H]. discriminate H.
  - destruct Hin as [H|[H|H]]; try discriminate H.
    apply shown_is_show in H as [c H]. discriminate H.
Qed.

(** C9.  [printCommitHistory] returns after printing, with [console.log],
    the header and then either the single line that says that no commits
    were found, when the list of commits is empty, or, for each commit in
    order, the eight lines of the template: separator, hash, author, date,
    message, the blank line with the diff label, the diff, separator.  When
    the list is empty no separator is printed, and the lines printed are
    the reader's own notice, the header and the line that says that no
    commits were found. *)
Theorem printCommitHistory_template
    (path time : string) (w : W) (commits : list GitCommit) :
  result (getCommits tool (newGitLogger path time) w) = inr commits ->
  result (printCommitHistory tool (newGitLogger path time) w) = inr tt /\
  events (printCommitHistory tool (newGitLogger path time) w) =
    events (getCommits tool (newGitLogger path time) w)
    ++ ConsoleLog ("Git History for " +:+ path +:+ " as of " +:+ time +:+ ":"
                   +:+ newline)
    :: match commits with
       | [] => [ConsoleLog "No commits found or not a git repository."]
       | _ :: _ => flat_map rendered commits
       end /\
  (commits = [] ->
   ~ In (ConsoleLog "----------------------------------------")
        (events (printCommitHistory tool (newGitLogger path time) w)) /\
   forall line,
     In (ConsoleLog line)
        (events (printCommitHistory tool (newGitLogger path time) w)) ->
     line = "Not a git repository: " +:+ path \/
     line = "Git History for " +:+ path +:+ " as of " +:+ time +:+ ":" +:+ newline \/
     line = "No commits found or not a git repository.").
Proof.
  intros Hres.
  assert (Hev : events (printCommitHistory tool (newGitLogger path time) w) =
    events (getCommits tool (newGitLogger path time) w)
    ++ ConsoleLog ("Git History for " +:+ path +:+ " as of " +:+ time +:+ ":"
                   +:+ newline)
    :: match commits with
       | [] => [ConsoleLog "No commits found or not a git repository."]
       | _ :: _ => flat_map rendered commits
       end /\
    result (printCommitHistory tool (newGitLogger path time) w) = inr tt).
  { unfold printCommitHistory. rewrite (bind_inr _ _ _ _ Hres).
    cbn [newGitLogger repoPath currentTime result events].
    destruct commits as [|c commits].
    - split; reflexivity.
    - unfold bind, console_log, emit. cbn [result events final length Nat.eqb].
      rewrite forOf_printCommit. split; reflexivity. }
  destruct Hev as [Hev Hret]. split; [exact Hret|]. split; [exact Hev|].
  intros ->. rewrite Hev.
  destruct (getCommits_run tool (newGitLogger path time) w) as (cs & Hres' & Hrun).
  assert (Hlines : forall line,
    In (ConsoleLog line)
       (events (getCommits tool (newGitLogger path time) w)
        ++ [ConsoleLog ("Git History for " +:+ path +:+ " as of " +:+ time +:+ ":"
                        +:+ newline);
            ConsoleLog "No commits found or not a git repository."]) ->
    line = "Not a git repository: " +:+ path \/
    line = "Git History for " +:+ path +:+ " as of " +:+ time +:+ ":" +:+ newline \/
    line = "No commits found or not a git repository.").
  { intros line Hin. apply in_app_or in Hin as [Hin|[Hin|[Hin|[]]]].
    - left. apply (ReaderRun_console_lines _ _ _ _ Hrun Hin).
    - right. left. by injection Hin as <-.
    - right. right. by injection Hin as <-. }
  split; [|exact Hlines].
  intros Hin. apply Hlines in Hin as [H|[H|H]]; simpl in H; discriminate H.
Qed.

End PrinterClaims.

(** ** Properties of the replayer *)

Section ReplayerClaims.

Context {W : Type}.
Variable tool : GitTool W.

(** The reader runs no [raw] command. *)
Lemma ReaderRun_no_raw this evs cs dir args settled :
  ReaderRun this evs cs -> ~ In (GitRaw dir args settled) evs.
Proof.
  intros Hrun Hin.
  destruct Hrun as [e0| |e0|all cs entry e0 Hentry|all cs Hall].
  - destruct Hin as [H|[H|[]]]; discriminate H.
  - destruct Hin as [H|[H|[]]]; discriminate H.
  - destruct Hin as [H|[H|[H|[]]]]; discriminate H.
  - destruct Hin as [H|[H|H]]; try discriminate H.
    apply in_app_or in H as [H|[H|[H|[]]]]; try discriminate H.
    apply shown_is_show in H as [c H]. discriminate H.
  - destruct Hin as [H|[H|H]]; try discriminate H.
    apply shown_is_show in H as [c H]. discriminate H.
Qed.

(** [applyToRepo] after the reader, case by case: nothing to apply; the
    handle on the target cannot be made; the check of the target is
    rejected; the target is not a repository; the banner and the loop. *)
Lemma applyToRepo_eq this target options w commits :
  result (getCommits tool this w) = inr commits ->
  applyToRepo tool this target options w =
  let reader := getCommits tool this w in
  match commits with
  | [] =>
      mkOutcome (inr tt) (events reader ++ [ConsoleLog "No commits to apply."])
        (final reader)
  | _ :: _ =>
      if tool_folderExists tool target (final reader) then
        let '(r, w') := tool_checkIsRepo tool target (final reader) in
        match r with
        | inl e =>
            mkOutcome (inl e) (events reader ++ [GitCheckIsRepo target r]) w'
        | inr false =>
            mkOutcome (inr tt)
              (events reader
               ++ [GitCheckIsRepo target r;
                   ConsoleLog ("Target is not a git repository: " +:+ target)])
              w'
        | inr true =>
            let loop :=
              forOf commits (applyToRepo_body tool this (simpleGit target) options)
                w' in
            mkOutcome (result loop)
              (events reader
               ++ [GitCheckIsRepo target r;
                   ConsoleLog ("Applying commits to " +:+ target +:+ "..."
                               +:+ newline)]
               ++ events loop)
              (final loop)
        end
      else mkOutcome (inl gitConstructError) (events reader) (final reader)
  end.
Proof.
  intros Hres. unfold applyToRepo. rewrite (bind_inr _ _ _ _ Hres). cbv zeta.
  destruct commits as [|c cs]; [reflexivity|].
  cbn [length Nat.eqb]. unfold bind, simpleGit_call, checkIsRepo, console_log, emit.
  destruct (tool_folderExists tool target (final (getCommits tool this w)));
    cbn [result events final baseDir app].
  - destruct (tool_checkIsRepo tool target (final (getCommits tool this w)))
      as [[e|[|]] w']; reflexivity.
  - by rewrite app_nil_r.
Qed.

(** [applyToRepo] once the reader has returned a non-empty list and the
    target has been found to be a repository: the banner, then the loop. *)
Lemma applyToRepo_loop this target options w c cs :
  result (getCommits tool this w) = inr (c :: cs) ->
  (tool_checkIsRepo tool target (final (getCommits tool this w))).1 = inr true ->
  let w' := (tool_checkIsRepo tool target (final (getCommits tool this w))).2 in
  let loop := forOf (c :: cs) (applyToRepo_body tool this (simpleGit target) options) w' in
  applyToRepo tool this target options w =
  mkOutcome (result loop)
    (events (getCommits tool this w)
     ++ [GitCheckIsRepo target (inr true);
         ConsoleLog ("Applying commits to " +:+ target +:+ "..." +:+ newline)]
     ++ events loop)
    (final loop).
Proof.
  intros Hres Hrepo. cbv zeta. rewrite (applyToRepo_eq _ _ _ _ _ Hres). cbv zeta.
  rewrite (tool_repo_exists tool _ _ Hrepo).
  destruct (tool_checkIsRepo tool target (final (getCommits tool this w)))
    as [r w']. cbn [fst snd] in *. subst r. reflexivity.
Qed.


(** C2, as the code has it.  When a command of the [try] block of a commit
    (patch generation, patch application, patch-file removal) is rejected
    with an error, everything before it in that turn was fulfilled, and the
    turn goes on with exactly two more events: the failure line, which
    carries the commit's hash, its date and the error, and [am --abort] on
    the target.  When that abort is fulfilled the turn returns and the loop
    goes on with the commits that remain, from the world the turn left.
    When the abort is rejected, the loop ends there and throws the error of
    the abort. *)
Theorem failed_step_is_logged_then_aborted
    (path time target : string) (options : ApplyOptions)
    (commit : GitCommit) (rest : list GitCommit) (w : W)
    (dir : string) (args : list string) (e : JsError) :
  In (GitRaw dir args (inl e))
     (events (applyToRepo_body tool (newGitLogger path time) (simpleGit target)
                options commit w)) ->
  args <> ["am"; "--abort"] ->
  exists before settled,
    events (applyToRepo_body tool (newGitLogger path time) (simpleGit target)
              options commit w) =
      before
      ++ [GitRaw dir args (inl e);
          ConsoleError ("Failed to apply commit " +:+ hash commit +:+ " from "
                        +:+ date commit +:+ ":") e;
          GitRaw target ["am"; "--abort"] settled] /\
    (forall ev, In ev before -> rejectedWith ev = None) /\
    (forall s, settled = inr s ->
       result (applyToRepo_body tool (newGitLogger path time) (simpleGit target)
                 options commit w) = inr tt /\
       result (forOf (commit :: rest)
                 (applyToRepo_body tool (newGitLogger path time)
                    (simpleGit target) options) w) =
       result (forOf rest
                 (applyToRepo_body tool (newGitLogger path time)
                    (simpleGit target) options)
                 (final (applyToRepo_body tool (newGitLogger path time)
                           (simpleGit target) options commit w))) /\
       events (forOf (commit :: rest)
                 (applyToRepo_body tool (newGitLogger path time)
                    (simpleGit target) options) w) =
       events (applyToRepo_body tool (newGitLogger path time) (simpleGit target)
                 options commit w)
       ++ events (forOf rest
                    (applyToRepo_body tool (newGitLogger path time)
                       (simpleGit target) options)
                    (final (applyToRepo_body tool (newGitLogger path time)
                              (simpleGit target) options commit w)))) /\
    (forall e', settled = inl e' ->
       result (forOf (commit :: rest)
                 (applyToRepo_body tool (newGitLogger path time)
                    (simpleGit target) options) w) = inl e' /\
       events (forOf (commit :: rest)
                 (applyToRepo_body tool (newGitLogger path time)
                    (simpleGit target) options) w) =
       events (applyToRepo_body tool (newGitLogger path time) (simpleGit target)
                 options commit w)).
Proof.
  intros Hin Hnot. rewrite forOf_cons.
  rewrite applyToRepo_body_eq in *. cbv zeta in *.
  change (baseDir (git (newGitLogger path time))) with path in *.
  change (baseDir (simpleGit target)) with target in *.
  set (this := newGitLogger path time) in *.
  destruct (tool_raw tool path (formatPatchArgs this commit) w) as [[e1|s1] w1].
  { unfold caught in *. cbn [baseDir] in *.
    destruct (tool_raw tool target ["am"; "--abort"] w1) as [r' w'].
    cbn [events result final app] in *.
    destruct Hin as [H|[H|[H|[]]]]; [|discriminate H|congruence].
    injection H as <- <- <-. exists [], r'.
    split; [reflexivity|]. split; [intros ev []|].
    split; [intros s -> | intros e' ->]; repeat split; reflexivity. }
  destruct (tool_raw tool target (amArgsOf options (patchPathOf this commit)) w1)
    as [[e3|s3] w3].
  { unfold caught in *. cbn [baseDir] in *.
    destruct (tool_raw tool target ["am"; "--abort"] w3) as [r' w'].
    cbn [events result final app] in *.
    destruct Hin as [H|[H|[H|[H|[H|[]]]]]]; try discriminate H; [|congruence].
    injection H as <- <- <-.
    exists [GitRaw path (formatPatchArgs this commit) (inr s1);
            ConsoleLog (applyingLine commit)], r'.
    split; [reflexivity|].
    split; [intros ev [<-|[<-|[]]]; reflexivity|].
    split; [intros s -> | intros e' ->]; repeat split; reflexivity. }
  destruct (tool_raw tool target ["clean"; "-f"; patchPathOf this commit] w3)
    as [[e4|s4] w4].
  { unfold caught in *. cbn [baseDir] in *.
    destruct (tool_raw tool target ["am"; "--abort"] w4) as [r' w'].
    cbn [events result final app] in *.
    destruct Hin as [H|[H|[H|[H|[H|[H|[]]]]]]]; try discriminate H; [|congruence].
    injection H as <- <- <-.
    exists [GitRaw path (formatPatchArgs this commit) (inr s1);
            ConsoleLog (applyingLine commit);
            GitRaw target (amArgsOf options (patchPathOf this commit)) (inr s3)], r'.
    split; [reflexivity|].
    split; [intros ev [<-|[<-|[<-|[]]]]; reflexivity|].
    split; [intros s -> | intros e' ->]; repeat split; reflexivity. }
  cbn [events] in Hin.
  destruct Hin as [H|[H|[H|[H|[H|[]]]]]]; discriminate H.
Qed.

(** The patch path is none of the arguments of [format-patch]. *)
Lemma patchPath_not_in_formatPatchArgs this commit :
  ~ In (patchPathOf this commit) (formatPatchArgs this commit).
Proof.
  unfold patchPathOf, formatPatchArgs. intros Hin.
  assert (Hslash : hasSlash (repoPath this +:+ "/temp_" +:+ hash commit +:+ ".patch")
                   = true).
  { rewrite hasSlash_append. apply orb_true_r. }
  assert (Hlen : String.length (repoPath this +:+ "/temp_" +:+ hash commit +:+ ".patch")
                 = String.length (repoPath this) + (6 + (String.length (hash commit) + 6))).
  { rewrite !length_append. reflexivity. }
  destruct Hin as [H|[H|[H|[H|[H|[H|[H|[H|[H|[]]]]]]]]]];
    rewrite <- H in Hslash, Hlen; try discriminate Hslash; lia.
Qed.

(** C3, as the code has it.  Each turn of the loop starts with
    [format-patch --stdout -1 --full-index --binary --date-order <hash> -o
    <repoPath>] in the source repository.  The path
    [<repoPath>/temp_<hash>.patch] is not among its arguments, which ask
    for the patch on standard output, and every later command of the turn
    is run on the target's handle; the path is the last argument of the
    command that applies the patch. *)
Theorem format_patch_never_names_the_patch_file
    (path time target : string) (options : ApplyOptions)
    (commit : GitCommit) (w : W) :
  exists settled rest,
    events (applyToRepo_body tool (newGitLogger path time) (simpleGit target)
              options commit w) =
      GitRaw path ["format-patch"; "--stdout"; "-1"; "--full-index"; "--binary";
                "--date-order"; hash commit; "-o"; path] settled
      :: rest /\
    ~ In (path +:+ "/temp_" +:+ hash commit +:+ ".patch")
         ["format-patch"; "--stdout"; "-1"; "--full-index"; "--binary";
          "--date-order"; hash commit; "-o"; path] /\
    (forall dir args r, In (GitRaw dir args r) rest -> dir = target) /\
    last (amArgsOf options (patchPathOf (newGitLogger path time) commit)) =
      Some (path +:+ "/temp_" +:+ hash commit +:+ ".patch").
Proof.
  rewrite applyToRepo_body_eq. cbv zeta.
  change (baseDir (git (newGitLogger path time))) with path.
  change (baseDir (simpleGit target)) with target.
  set (this := newGitLogger path time).
  assert (Hlast : last (amArgsOf options (patchPathOf this commit)) =
                  Some (path +:+ "/temp_" +:+ hash commit +:+ ".patch")).
  { unfold amArgsOf. apply last_snoc. }
  pose proof (patchPath_not_in_formatPatchArgs this commit) as Hnot.
  destruct (tool_raw tool path (formatPatchArgs this commit) w) as [[e1|s1] w1].
  { unfold caught. cbn [baseDir].
    destruct (tool_raw tool target ["am"; "--abort"] w1) as [r' w'].
    cbn [events app]. eexists _, _. split; [reflexivity|].
    repeat split; [exact Hnot| |exact Hlast].
    intros dir args r [H|[H|[]]]; [discriminate H|]. by injection H as <- _ _. }
  destruct (tool_raw tool target (amArgsOf options (patchPathOf this commit)) w1)
    as [[e3|s3] w3].
  { unfold caught. cbn [baseDir].
    destruct (tool_raw tool target ["am"; "--abort"] w3) as [r' w'].
    cbn [events app]. eexists _, _. split; [reflexivity|].
    repeat split; [exact Hnot| |exact Hlast].
    intros dir args r [H|[H|[H|[H|[]]]]]; try discriminate H;
      by injection H as <- _ _. }
  destruct (tool_raw tool target ["clean"; "-f"; patchPathOf this commit] w3)
    as [[e4|s4] w4].
  { unfold caught. cbn [baseDir].
    destruct (tool_raw tool target ["am"; "--abort"] w4) as [r' w'].
    cbn [events app]. eexists _, _. split; [reflexivity|].
    repeat split; [exact Hnot| |exact Hlast].
    intros dir args r [H|[H|[H|[H|[H|[]]]]]]; try discriminate H;
      by injection H as <- _ _. }
  cbn [events]. eexists _, _. split; [reflexivity|].
  repeat split; [exact Hnot| |exact Hlast].
  intros dir args r [H|[H|[H|[H|[]]]]]; try discriminate H;
    by injection H as <- _ _.
Qed.

(** The argument list of the command that applies the patch: the four
    fixed flags, the author override when both author fields are truthy,
    the patch path. *)
Lemma amArgsOf_shape options patchPath :
  exists override,
    amArgsOf options patchPath =
      ["--committer-date-is-author-date"; "--ignore-space-change";
       "--ignore-whitespace"; "--3way"] ++ override ++ [patchPath] /\
    ((exists name email,
        newAuthor options = Some name /\ name <> "" /\
        newEmail options = Some email /\ email <> "" /\
        override = ["--author"; name +:+ " <" +:+ email +:+ ">"]) \/
     (override = [] /\
      ~ (exists name email,
           newAuthor options = Some name /\ name <> "" /\
           newEmail options = Some email /\ email <> ""))).
Proof.
  unfold amArgsOf, fixedAmFlags.
  destruct (truthy (newAuthor options)) eqn:Ha;
    [destruct (truthy (newEmail options)) eqn:He|]; cbn [andb].
  - apply truthy_Some in Ha as (name & Hname & Hne).
    apply truthy_Some in He as (email & Hemail & Hne').
    exists ["--author"; name +:+ " <" +:+ email +:+ ">"].
    rewrite Hname, Hemail. split; [reflexivity|].
    left. exists name, email. auto.
  - exists []. split; [reflexivity|]. right. split; [reflexivity|].
    intros (name & email & _ & _ & Hemail & Hne).
    assert (truthy (newEmail options) = true) by (apply truthy_Some; eauto).
    congruence.
  - exists []. split; [reflexivity|]. right. split; [reflexivity|].
    intros (name & email & Hname & Hne & _).
    assert (truthy (newAuthor options) = true) by (apply truthy_Some; eauto).
    congruence.
Qed.

(** C6.  In every turn of the loop whose patch generation is fulfilled, the
    next command is the one that applies the patch, on the target: its
    arguments are the four fixed flags, then the author override, then the
    patch path, and no other command of the turn applies a patch.  The
    override is [--author] followed by [<name> <email>] when both the new
    author name and the new author e-mail are supplied (present and not
    empty, the test the source makes), and it is absent otherwise. *)
Theorem am_invocation_flags
    (path time target : string) (options : ApplyOptions)
    (commit : GitCommit) (w : W) (s : string) :
  (tool_raw tool path (formatPatchArgs (newGitLogger path time) commit) w).1
    = inr s ->
  exists override settled rest,
    events (applyToRepo_body tool (newGitLogger path time) (simpleGit target)
              options commit w) =
      GitRaw path (formatPatchArgs (newGitLogger path time) commit) (inr s)
      :: ConsoleLog (applyingLine commit)
      :: GitRaw target
           (["--committer-date-is-author-date"; "--ignore-space-change";
             "--ignore-whitespace"; "--3way"]
            ++ override
            ++ [path +:+ "/temp_" +:+ hash commit +:+ ".patch"]) settled
      :: rest /\
    ((exists name email,
        newAuthor options = Some name /\ name <> "" /\
        newEmail options = Some email /\ email <> "" /\
        override = ["--author"; name +:+ " <" +:+ email +:+ ">"]) \/
     (override = [] /\
      ~ (exists name email,
           newAuthor options = Some name /\ name <> "" /\
           newEmail options = Some email /\ email <> ""))) /\
    (forall dir args r, In (GitRaw dir args r) rest ->
       args = ["clean"; "-f"; path +:+ "/temp_" +:+ hash commit +:+ ".patch"] \/
       args = ["am"; "--abort"]).
Proof.
  intros Hgen. rewrite applyToRepo_body_eq. cbv zeta.
  change (baseDir (git (newGitLogger path time))) with path.
  change (baseDir (simpleGit target)) with target.
  set (this := newGitLogger path time) in *.
  destruct (amArgsOf_shape options (patchPathOf this commit))
    as (override & Hargs & Hover).
  exists override.
  destruct (tool_raw tool path (formatPatchArgs this commit) w) as [r1 w1].
  cbn [fst] in Hgen. subst r1.
  destruct (tool_raw tool target (amArgsOf options (patchPathOf this commit)) w1)
    as [[e3|s3] w3].
  { unfold caught. cbn [baseDir].
    destruct (tool_raw tool target ["am"; "--abort"] w3) as [r' w'].
    cbn [events app]. rewrite Hargs. eexists _, _. split; [reflexivity|].
    split; [exact Hover|].
    intros dir args r [H|[H|[]]]; [discriminate H|].
    right. by injection H as _ <- _. }
  destruct (tool_raw tool target ["clean"; "-f"; patchPathOf this commit] w3)
    as [[e4|s4] w4].
  { unfold caught. cbn [baseDir].
    destruct (tool_raw tool target ["am"; "--abort"] w4) as [r' w'].
    cbn [events app]. rewrite Hargs. eexists _, _. split; [reflexivity|].
    split; [exact Hover|].
    intros dir args r [H|[H|[H|[]]]]; try discriminate H.
    - left. by injection H as _ <- _.
    - right. by injection H as _ <- _. }
  cbn [events]. rewrite Hargs. eexists _, _. split; [reflexivity|].
  split; [exact Hover|].
  intros dir args r [H|[H|[]]]; [|discriminate H].
  left. by injection H as _ <- _.
Qed.




(** C10.  In a turn of the loop in which every command is fulfilled, the
    last event is the success line, and its two labels are decided by the
    name fields alone: the author label is [new author: <name>] whenever
    [newAuthor] is set (present and not empty) and the committer label is
    [new committer: <name>] whenever [newCommitter] is set, whatever the
    e-mail fields are.  When [newEmail] is absent the command that applied
    the patch carried the four fixed flags and the patch path only, so the
    line can name a new author that was not applied; and that command is
    the one the run without a committer override makes, so the line can
    name a new committer that was not applied. *)
Theorem success_line_labels_follow_the_names
    (path time target : string) (options : ApplyOptions)
    (commit : GitCommit) (w : W) :
  (forall ev,
     In ev (events (applyToRepo_body tool (newGitLogger path time)
                      (simpleGit target) options commit w)) ->
     rejectedWith ev = None) ->
  exists authorInfo committerInfo applied,
    last (events (applyToRepo_body tool (newGitLogger path time)
                    (simpleGit target) options commit w)) =
      Some (ConsoleLog ("✓ Successfully applied with " +:+ authorInfo +:+ ", "
                        +:+ committerInfo +:+ " and original date: "
                        +:+ date commit +:+ newline)) /\
    In (GitRaw target
          (amArgsOf options (path +:+ "/temp_" +:+ hash commit +:+ ".patch"))
          (inr applied))
       (events (applyToRepo_body tool (newGitLogger path time)
                  (simpleGit target) options commit w)) /\
    (forall name, newAuthor options = Some name -> name <> "" ->
       authorInfo = "new author: " +:+ name) /\
    (newAuthor options = None \/ newAuthor options = Some "" ->
       authorInfo = "original author: " +:+ author commit) /\
    (forall name, newCommitter options = Some name -> name <> "" ->
       committerInfo = "new committer: " +:+ name) /\
    (newCommitter options = None \/ newCommitter options = Some "" ->
       committerInfo = "original committer") /\
    (newEmail options = None ->
       amArgsOf options (path +:+ "/temp_" +:+ hash commit +:+ ".patch") =
         ["--committer-date-is-author-date"; "--ignore-space-change";
          "--ignore-whitespace"; "--3way";
          path +:+ "/temp_" +:+ hash commit +:+ ".patch"]) /\
    amArgsOf options (path +:+ "/temp_" +:+ hash commit +:+ ".patch") =
      amArgsOf (withoutCommitter options)
        (path +:+ "/temp_" +:+ hash commit +:+ ".patch").
Proof.
  intros Hok. exists (authorInfoOf options commit), (committerInfoOf options).
  assert (Hlabels :
    (forall name, newAuthor options = Some name -> name <> "" ->
       authorInfoOf options commit = "new author: " +:+ name) /\
    (newAuthor options = None \/ newAuthor options = Some "" ->
       authorInfoOf options commit = "original author: " +:+ author commit) /\
    (forall name, newCommitter options = Some name -> name <> "" ->
       committerInfoOf options = "new committer: " +:+ name) /\
    (newCommitter options = None \/ newCommitter options = Some "" ->
       committerInfoOf options = "original committer") /\
    (newEmail options = None ->
       amArgsOf options (path +:+ "/temp_" +:+ hash commit +:+ ".patch") =
         ["--committer-date-is-author-date"; "--ignore-space-change";
          "--ignore-whitespace"; "--3way";
          path +:+ "/temp_" +:+ hash commit +:+ ".patch"]) /\
    amArgsOf options (path +:+ "/temp_" +:+ hash commit +:+ ".patch") =
      amArgsOf (withoutCommitter options)
        (path +:+ "/temp_" +:+ hash commit +:+ ".patch")).
  { unfold authorInfoOf, committerInfoOf, amArgsOf. repeat split.
    - intros name Hname Hne.
      assert (truthy (newAuthor options) = true) as -> by (apply truthy_Some; eauto).
      by rewrite Hname.
    - by intros [->| ->].
    - intros name Hname Hne.
      assert (truthy (newCommitter options) = true) as ->
        by (apply truthy_Some; eauto).
      by rewrite Hname.
    - by intros [->| ->].
    - intros ->. cbn [truthy]. by rewrite andb_false_r. }
  revert Hok. rewrite applyToRepo_body_eq. cbv zeta.
  change (baseDir (git (newGitLogger path time))) with path.
  change (baseDir (simpleGit target)) with target.
  change (patchPathOf (newGitLogger path time) commit)
    with (path +:+ "/temp_" +:+ hash commit +:+ ".patch").
  set (this := newGitLogger path time).
  set (patchPath := path +:+ "/temp_" +:+ hash commit +:+ ".patch") in *.
  destruct (tool_raw tool path (formatPatchArgs this commit) w) as [[e1|s1] w1].
  { unfold caught. cbn [baseDir].
    destruct (tool_raw tool target ["am"; "--abort"] w1) as [r' w'].
    cbn [events app]. intros Hok.
    specialize (Hok _ (or_introl eq_refl)). discriminate Hok. }
  destruct (tool_raw tool target (amArgsOf options patchPath) w1) as [[e3|s3] w3].
  { unfold caught. cbn [baseDir].
    destruct (tool_raw tool target ["am"; "--abort"] w3) as [r' w'].
    cbn [events app]. intros Hok.
    specialize (Hok _ (or_intror (or_intror (or_introl eq_refl)))).
    discriminate Hok. }
  destruct (tool_raw tool target ["clean"; "-f"; patchPath] w3) as [[e4|s4] w4].
  { unfold caught. cbn [baseDir].
    destruct (tool_raw tool target ["am"; "--abort"] w4) as [r' w'].
    cbn [events app]. intros Hok.
    specialize (Hok _ (or_intror (or_intror (or_intror (or_introl eq_refl))))).
    discriminate Hok. }
  cbn [events]. intros _. exists s3.
  split; [reflexivity|]. split; [|exact Hlabels].
  right. right. left. reflexivity.
Qed.

(** The command that applies the patch does not depend on the committer
    fields. *)
Lemma amArgsOf_withoutCommitter options patchPath :
  amArgsOf (withoutCommitter options) patchPath = amArgsOf options patchPath.
Proof. reflexivity. Qed.

Lemma gitCalls_app evs evs' : gitCalls (evs ++ evs') = gitCalls evs ++ gitCalls evs'.
Proof. apply List.filter_app. Qed.

(** A turn of the loop with and without the committer override: the same
    calls with the same answers, the same return, the same world. *)
Lemma applyToRepo_body_withoutCommitter this targetGit options commit w :
  result (applyToRepo_body tool this targetGit (withoutCommitter options) commit w) =
    result (applyToRepo_body tool this targetGit options commit w) /\
  final (applyToRepo_body tool this targetGit (withoutCommitter options) commit w) =
    final (applyToRepo_body tool this targetGit options commit w) /\
  gitCalls (events (applyToRepo_body tool this targetGit (withoutCommitter options)
                      commit w)) =
    gitCalls (events (applyToRepo_body tool this targetGit options commit w)).
Proof.
  rewrite !applyToRepo_body_eq. cbv zeta. rewrite amArgsOf_withoutCommitter.
  destruct (tool_raw tool (baseDir (git this)) (formatPatchArgs this commit) w)
    as [[e1|s1] w1].
  { unfold caught.
    destruct (tool_raw tool (baseDir targetGit) ["am"; "--abort"] w1) as [r' w'].
    repeat split. }
  destruct (tool_raw tool (baseDir targetGit)
              (amArgsOf options (patchPathOf this commit)) w1) as [[e3|s3] w3].
  { unfold caught.
    destruct (tool_raw tool (baseDir targetGit) ["am"; "--abort"] w3) as [r' w'].
    repeat split. }
  destruct (tool_raw tool (baseDir targetGit)
              ["clean"; "-f"; patchPathOf this commit] w3) as [[e4|s4] w4].
  { unfold caught.
    destruct (tool_raw tool (baseDir targetGit) ["am"; "--abort"] w4) as [r' w'].
    repeat split. }
  repeat split.
Qed.

Lemma forOf_withoutCommitter this targetGit options commits w :
  result (forOf commits (applyToRepo_body tool this targetGit
                           (withoutCommitter options)) w) =
    result (forOf commits (applyToRepo_body tool this targetGit options) w) /\
  final (forOf commits (applyToRepo_body tool this targetGit
                          (withoutCommitter options)) w) =
    final (forOf commits (applyToRepo_body tool this targetGit options) w) /\
  gitCalls (events (forOf commits (applyToRepo_body tool this targetGit
                                     (withoutCommitter options)) w)) =
    gitCalls (events (forOf commits (applyToRepo_body tool this targetGit options) w)).
Proof.
  revert w. induction commits as [|c commits IH]; intros w.
  - repeat split.
  - rewrite !forOf_cons.
    destruct (applyToRepo_body_withoutCommitter this targetGit options c w)
      as (Hres & Hfin & Hcalls).
    rewrite Hres, Hfin.
    destruct (result (applyToRepo_body tool this targetGit options c w)) as [e|[]].
    + cbn [result events final]. repeat split. exact Hcalls.
    + cbv zeta. cbn [result events final].
      destruct (IH (final (applyToRepo_body tool this targetGit options c w)))
        as (Hres' & Hfin' & Hcalls').
      rewrite !gitCalls_app, Hcalls, Hcalls'. repeat split; assumption.
Qed.

(** A turn of the loop throws only when its [am --abort] is rejected, and
    then with the error of the abort. *)
Lemma applyToRepo_body_throws this targetGit options commit w e :
  result (applyToRepo_body tool this targetGit options commit w) = inl e ->
  In (GitRaw (baseDir targetGit) ["am"; "--abort"] (inl e))
     (events (applyToRepo_body tool this targetGit options commit w)).
Proof.
  rewrite applyToRepo_body_eq. cbv zeta.
  destruct (tool_raw tool (baseDir (git this)) (formatPatchArgs this commit) w)
    as [[e1|s1] w1].
  { unfold caught.
    destruct (tool_raw tool (baseDir targetGit) ["am"; "--abort"] w1)
      as [[e'|s'] w']; cbn [result events app]; [|discriminate].
    intros [= <-]. right. right. left. reflexivity. }
  destruct (tool_raw tool (baseDir targetGit)
              (amArgsOf options (patchPathOf this commit)) w1) as [[e3|s3] w3].
  { unfold caught.
    destruct (tool_raw tool (baseDir targetGit) ["am"; "--abort"] w3)
      as [[e'|s'] w']; cbn [result events app]; [|discriminate].
    intros [= <-]. do 4 right. left. reflexivity. }
  destruct (tool_raw tool (baseDir targetGit)
              ["clean"; "-f"; patchPathOf this commit] w3) as [[e4|s4] w4].
  { unfold caught.
    destruct (tool_raw tool (baseDir targetGit) ["am"; "--abort"] w4)
      as [[e'|s'] w']; cbn [result events app]; [|discriminate].
    intros [= <-]. do 5 right. left. reflexivity. }
  discriminate.
Qed.

(** When no [am --abort] of the loop is rejected, the loop returns and a
    turn is started for every commit, in order. *)
Lemma replay_reaches_every_commit this targetGit options commits w :
  (forall e,
     ~ In (GitRaw (baseDir targetGit) ["am"; "--abort"] (inl e))
          (events (forOf commits (applyToRepo_body tool this targetGit options) w))) ->
  result (forOf commits (applyToRepo_body tool this targetGit options) w) = inr tt /\
  map fst (turns (applyToRepo_body tool this targetGit options) commits w) = commits.
Proof.
  revert w. induction commits as [|c commits IH]; intros w Habort.
  - split; reflexivity.
  - rewrite forOf_cons in *. cbn [turns map fst].
    destruct (result (applyToRepo_body tool this targetGit options c w))
      as [e|[]] eqn:Hres.
    + exfalso. apply (Habort e). cbn [events].
      by apply applyToRepo_body_throws.
    + cbv zeta in *. cbn [result events] in *.
      destruct (IH (final (applyToRepo_body tool this targetGit options c w)))
        as [Hret Hturns].
      * intros e Hin. apply (Habort e). apply in_or_app. by right.
      * split; [exact Hret | by rewrite Hturns].
Qed.

(** C4.  When both a new committer name and a new committer e-mail are
    supplied (present and not empty), the environment map that is computed
    holds [GIT_COMMITTER_NAME] and [GIT_COMMITTER_EMAIL] and nothing else;
    and the run makes the same calls on the two repositories, with the same
    arguments and the same answers, returns or throws the same, and leaves
    the same world as the run in which the committer override is taken out
    of the options: the map reaches no command. *)
Theorem committer_env_is_computed_but_not_passed
    (path time target : string) (options : ApplyOptions) (w : W)
    (name email : string) :
  newCommitter options = Some name -> name <> "" ->
  newCommitterEmail options = Some email -> email <> "" ->
  committerEnv options =
    {[ "GIT_COMMITTER_NAME" := name; "GIT_COMMITTER_EMAIL" := email ]} /\
  gitCalls (events (applyToRepo tool (newGitLogger path time) target
                      (withoutCommitter options) w)) =
    gitCalls (events (applyToRepo tool (newGitLogger path time) target options w)) /\
  result (applyToRepo tool (newGitLogger path time) target
            (withoutCommitter options) w) =
    result (applyToRepo tool (newGitLogger path time) target options w) /\
  final (applyToRepo tool (newGitLogger path time) target
           (withoutCommitter options) w) =
    final (applyToRepo tool (newGitLogger path time) target options w).
Proof.
  intros Hname Hne Hemail Hne'. split.
  { unfold committerEnv.
    assert (truthy (newCommitter options) = true) as ->
      by (apply truthy_Some; eauto).
    assert (truthy (newCommitterEmail options) = true) as ->
      by (apply truthy_Some; eauto).
    rewrite Hname, Hemail. cbn [andb interpolate].
    rewrite insert_empty. apply insert_insert_ne. discriminate. }
  clear name email Hname Hne Hemail Hne'.
  set (this := newGitLogger path time).
  destruct (getCommits_run tool this w) as (cs & Hres & _).
  destruct cs as [|c cs].
  { unfold applyToRepo. rewrite !(bind_inr _ _ _ _ Hres). repeat split. }
  destruct (tool_checkIsRepo tool target (final (getCommits tool this w)))
    as [[e|[|]] w'] eqn:Hcheck.
  - rewrite !(applyToRepo_eq _ _ _ _ _ Hres). cbv zeta. rewrite Hcheck.
    destruct (tool_folderExists tool target (final (getCommits tool this w)));
      repeat split.
  - assert (Hrepo : (tool_checkIsRepo tool target
                       (final (getCommits tool this w))).1 = inr true)
      by (by rewrite Hcheck).
    rewrite !(applyToRepo_loop _ _ _ _ _ _ Hres Hrepo).
    cbn [result events final]. rewrite !gitCalls_app.
    destruct (forOf_withoutCommitter this (simpleGit target) options (c :: cs)
                (tool_checkIsRepo tool target (final (getCommits tool this w))).2)
      as (Hres' & Hfin' & Hcalls').
    rewrite Hcalls'. repeat split; assumption.
  - rewrite !(applyToRepo_eq _ _ _ _ _ Hres). cbv zeta. rewrite Hcheck.
    destruct (tool_folderExists tool target (final (getCommits tool this w)));
      repeat split.
Qed.

End ReplayerClaims.

(** ** The command line *)

(** The options handed to [applyToRepo] by the entry point carry an author
    override exactly when both [--author] and [--email] are truthy, and
    then carry both fields. *)
Lemma applyOptionsOf_author (options : ProgramOpts) :
  (truthy (opt_author options) && truthy (opt_email options) = true /\
   newAuthor (applyOptionsOf options) = opt_author options /\
   newEmail (applyOptionsOf options) = opt_email options) \/
  (truthy (opt_author options) && truthy (opt_email options) = false /\
   newAuthor (applyOptionsOf options) = None /\
   newEmail (applyOptionsOf options) = None).
Proof.
  unfold applyOptionsOf.
  destruct (truthy (opt_author options) && truthy (opt_email options));
    destruct (truthy (opt_committer options) && truthy (opt_committerEmail options));
    cbn; auto.
Qed.

(** The command that applies the patch starts with a flag: the argument
    list has no subcommand in front. *)
Lemma amArgsOf_head (options : ApplyOptions) (patchPath : string) :
  head (amArgsOf options patchPath) = Some "--committer-date-is-author-date".
Proof.
  unfold amArgsOf.
  destruct (truthy (newAuthor options) && truthy (newEmail options)); reflexivity.
Qed.

(** The reader on the scripted tool. *)

Lemma getCommits_one_record_per_log_entry_witness :
  exists commits,
    result (getCommits (scripted healthy) (newGitLogger "/src" "now") 0) = inr commits /\
    length commits = 2 /\
    map hash commits = ["b2c4e6f"; "a1b3c5d"] /\
    map author commits = ["Ada"; "Grace"] /\
    map date commits = map log_date [entryA; entryB] /\
    map message commits = ["Add parser"; "Initial commit"] /\
    events (getCommits (scripted healthy) (newGitLogger "/src" "now") 0) =
      GitCheckIsRepo "/src" (inr true)
      :: GitLog "/src" (inr [entryA; entryB])
      :: map (fun c => GitShow "/src" [hash c] (inr (diff c))) commits.
Proof.
  apply (getCommits_one_record_per_log_entry
           (scripted healthy) "/src" "now" 0 [entryA; entryB]).
  - reflexivity.
  - reflexivity.
  - intros args e Hin. vm_compute in Hin.
    destruct Hin as [H|[H|[H|[H|[]]]]]; discriminate H.
Defined.

Lemma getCommits_never_throws_witness :
  result (getCommits (scripted showRejected) (newGitLogger "/src" "now") 0) = inr [] /\
  last (events (getCommits (scripted showRejected) (newGitLogger "/src" "now") 0)) =
    Some (ConsoleError "Error reading git history:" (GitError "fatal: bad object")) /\
  result (getCommits (scripted healthy) (newGitLogger "/tmp" "now") 0) = inr [] /\
  In (ConsoleLog "Not a git repository: /tmp")
     (events (getCommits (scripted healthy) (newGitLogger "/tmp" "now") 0)).
Proof.
  destruct (getCommits_never_throws (scripted showRejected) "/src" "now" 0)
    as (cs & Hres & _ & Hrej).
  destruct (Hrej (GitShow "/src" ["a1b3c5d"] (inl (GitError "fatal: bad object")))
                 (GitError "fatal: bad object")) as [-> Hlast].
  { vm_compute. tauto. }
  { reflexivity. }
  destruct (getCommits_never_throws (scripted healthy) "/tmp" "now" 0)
    as (cs' & Hres' & Hnot & _).
  destruct Hnot as [-> Hline].
  { vm_compute. tauto. }
  repeat split; assumption.
Defined.


Lemma printCommitHistory_template_witness :
  events (printCommitHistory (scripted healthy) (newGitLogger "/src" "now") 0) =
    events (getCommits (scripted healthy) (newGitLogger "/src" "now") 0)
    ++ ConsoleLog ("Git History for /src as of now:" +:+ newline)
    :: rendered commitA ++ rendered commitB.
Proof.
  apply (printCommitHistory_template (scripted healthy) "/src" "now" 0
           [commitA; commitB]).
  reflexivity.
Defined.


(** The replayer on the scripted tool. *)



(** C2, as the claim has it, fails: a commit whose patch generation is
    rejected and whose [am --abort] is rejected as well ends the run.  The
    reader returned two commits; the run throws in the turn of the first
    and the second is never processed. *)
Lemma rejected_abort_ends_the_run :
  result (getCommits (scripted rawRejected) (newGitLogger "/src" "now") 0) =
    inr [commitA; commitB] /\
  result (applyToRepo (scripted rawRejected) (newGitLogger "/src" "now") "/dst"
            noOptions 0) =
    inl (GitError "fatal: git exited with code 128") /\
  events (applyToRepo (scripted rawRejected) (newGitLogger "/src" "now") "/dst"
            noOptions 0) =
    events (getCommits (scripted rawRejected) (newGitLogger "/src" "now") 0)
    ++ [GitCheckIsRepo "/dst" (inr true);
        ConsoleLog ("Applying commits to /dst..." +:+ newline);
        GitRaw "/src"
          ["format-patch"; "--stdout"; "-1"; "--full-index"; "--binary";
           "--date-order"; "b2c4e6f"; "-o"; "/src"]
          (inl (GitError "fatal: git exited with code 128"));
        ConsoleError
          "Failed to apply commit b2c4e6f from 2024-05-02T10:15:00+02:00:"
          (GitError "fatal: git exited with code 128");
        GitRaw "/dst" ["am"; "--abort"]
          (inl (GitError "fatal: git exited with code 128"))].
Proof. repeat split. Qed.

Lemma failed_step_is_logged_then_aborted_witness :
  exists before,
    events (applyToRepo_body (scripted conflicting) (newGitLogger "/src" "now")
              (simpleGit "/dst") noOptions commitA 0) =
      before
      ++ [GitRaw "/dst"
            ["--committer-date-is-author-date"; "--ignore-space-change";
             "--ignore-whitespace"; "--3way"; "/src/temp_b2c4e6f.patch"]
            (inl (GitError "error: patch failed"));
          ConsoleError
            "Failed to apply commit b2c4e6f from 2024-05-02T10:15:00+02:00:"
            (GitError "error: patch failed");
          GitRaw "/dst" ["am"; "--abort"] (inr "")] /\
    result (forOf [commitA; commitB]
              (applyToRepo_body (scripted conflicting) (newGitLogger "/src" "now")
                 (simpleGit "/dst") noOptions) 0) = inr tt.
Proof.
  destruct (failed_step_is_logged_then_aborted (scripted conflicting)
              "/src" "now" "/dst" noOptions commitA [commitB] 0 "/dst"
              ["--committer-date-is-author-date"; "--ignore-space-change";
               "--ignore-whitespace"; "--3way"; "/src/temp_b2c4e6f.patch"]
              (GitError "error: patch failed"))
    as (before & settled & Hev & _ & Hnext & _).
  - vm_compute. tauto.
  - discriminate.
  - exists before. split; [|reflexivity].
    assert (settled = inr "") as ->; [|exact Hev].
    apply (f_equal last) in Hev. rewrite last_app in Hev.
    vm_compute in Hev. congruence.
Defined.

Lemma am_invocation_flags_witness :
  exists settled rest,
    events (applyToRepo_body (scripted healthy) (newGitLogger "/src" "now")
              (simpleGit "/dst") fullOverride commitA 0) =
      GitRaw "/src" (formatPatchArgs (newGitLogger "/src" "now") commitA) (inr "")
      :: ConsoleLog (applyingLine commitA)
      :: GitRaw "/dst"
           ["--committer-date-is-author-date"; "--ignore-space-change";
            "--ignore-whitespace"; "--3way";
            "--author"; "Eve <eve@example.org>";
            "/src/temp_b2c4e6f.patch"] settled
      :: rest.
Proof.
  destruct (am_invocation_flags (scripted healthy) "/src" "now" "/dst"
              fullOverride commitA 0 "")
    as (override & settled & rest & Hev & Hover & _).
  - reflexivity.
  - exists settled, rest.
    destruct Hover as [(name & email & Hn & _ & He & _ & ->)|[_ Hno]].
    + injection Hn as <-. injection He as <-. exact Hev.
    + exfalso. apply Hno. exists "Eve", "eve@example.org".
      repeat split; discriminate.
Defined.


Lemma success_line_labels_follow_the_names_witness :
  exists committerInfo applied,
    last (events (applyToRepo_body (scripted healthy) (newGitLogger "/src" "now")
                    (simpleGit "/dst") namesOnly commitA 0)) =
      Some (ConsoleLog ("✓ Successfully applied with new author: Eve, "
                        +:+ committerInfo +:+ " and original date: "
                        +:+ date commitA +:+ newline)) /\
    In (GitRaw "/dst"
          ["--committer-date-is-author-date"; "--ignore-space-change";
           "--ignore-whitespace"; "--3way"; "/src/temp_b2c4e6f.patch"]
          (inr applied))
       (events (applyToRepo_body (scripted healthy) (newGitLogger "/src" "now")
                  (simpleGit "/dst") namesOnly commitA 0)).
Proof.
  destruct (success_line_labels_follow_the_names (scripted healthy)
              "/src" "now" "/dst" namesOnly commitA 0)
    as (authorInfo & committerInfo & applied & Hlast & Hin & Hauthor & _ & _ & _
        & Hargs & _).
  - intros ev Hin. vm_compute in Hin.
    destruct Hin as [<-|[<-|[<-|[<-|[<-|[]]]]]]; reflexivity.
  - exists committerInfo, applied.
    rewrite (Hauthor "Eve" eq_refl) in Hlast by discriminate.
    rewrite (Hargs eq_refl) in Hin. split; [exact Hlast | exact Hin].
Defined.

Lemma committer_env_is_computed_but_not_passed_witness :
  committerEnv fullOverride =
    {[ "GIT_COMMITTER_NAME" := "Mallory";
       "GIT_COMMITTER_EMAIL" := "mallory@example.org" ]} /\
  gitCalls (events (applyToRepo (scripted healthy) (newGitLogger "/src" "now")
                      "/dst" (withoutCommitter fullOverride) 0)) =
    gitCalls (events (applyToRepo (scripted healthy) (newGitLogger "/src" "now")
                        "/dst" fullOverride 0)).
Proof.
  destruct (committer_env_is_computed_but_not_passed (scripted healthy)
              "/src" "now" "/dst" fullOverride 0 "Mallory" "mallory@example.org")
    as (Henv & Hcalls & _).
  - reflexivity.
  - discriminate.
  - reflexivity.
  - discriminate.
  - split; [exact Henv | exact Hcalls].
Defined.

(** An error that leaves [applyToRepo] reaches the entry point, which
    prints it and exits with status 1. *)
Example main_exits_when_the_replay_throws :
  events (main (scripted rawRejected) "now"
            {| opt_path := "/src"; opt_time := None; opt_apply := Some "/dst";
               opt_author := None; opt_email := None;
               opt_committer := None; opt_committerEmail := None |} 0) =
    events (applyToRepo (scripted rawRejected) (newGitLogger "/src" "now") "/dst"
              noOptions 0)
    ++ [ConsoleError "Failed to apply commits:"
          (GitError "fatal: git exited with code 128");
        ProcessExit 1].
Proof. vm_compute. reflexivity. Qed.

(** A patch that does not apply is contained when the abort is fulfilled:
    the next commit is processed. *)
Example conflicting_run_goes_on :
  gitCalls (events (forOf [commitA; commitB]
                      (applyToRepo_body (scripted conflicting)
                         (newGitLogger "/src" "now") (simpleGit "/dst") noOptions)
                      0)) =
    [GitRaw "/src" (formatPatchArgs (newGitLogger "/src" "now") commitA) (inr "");
     GitRaw "/dst" (amArgsOf noOptions "/src/temp_b2c4e6f.patch")
       (inl (GitError "error: patch failed"));
     GitRaw "/dst" ["am"; "--abort"] (inr "");
     GitRaw "/src" (formatPatchArgs (newGitLogger "/src" "now") commitB) (inr "");
     GitRaw "/dst" (amArgsOf noOptions "/src/temp_a1b3c5d.patch") (inr "");
     GitRaw "/dst" ["clean"; "-f"; "/src/temp_a1b3c5d.patch"]
       (inl (GitError "fatal: outside repository"));
     GitRaw "/dst" ["am"; "--abort"] (inr "")].
Proof. reflexivity. Qed.

(** An empty author name counts as no name: no override and the original
    author on the success line. *)
Example empty_author_name_is_no_name :
  amArgsOf {| newAuthor := Some ""; newEmail := Some "eve@example.org";
              newCommitter := None; newCommitterEmail := None |}
           "/src/temp_b2c4e6f.patch" =
    ["--committer-date-is-author-date"; "--ignore-space-change";
     "--ignore-whitespace"; "--3way"; "/src/temp_b2c4e6f.patch"] /\
  authorInfoOf {| newAuthor := Some ""; newEmail := Some "eve@example.org";
                  newCommitter := None; newCommitterEmail := None |} commitA =
    "original author: Ada".
Proof. split; reflexivity. Qed.

(** ** More on the reader and the printer *)

Section ReaderMore.

Context {W : Type}.
Variable tool : GitTool W.

(** Every call of the reader reads the repository of the logger. *)
Lemma ReaderRun_reads this evs cs ev :
  ReaderRun this evs cs -> In ev evs -> isGitCall ev = true ->
  readsOnly (baseDir (git this)) ev.
Proof.
  intros Hrun Hin Hcall. unfold readsOnly.
  destruct Hrun as [e0| |e0|all cs entry e0 Hentry|all cs Hall].
  - destruct Hin as [<-|[<-|[]]]; [eauto | discriminate Hcall].
  - destruct Hin as [<-|[<-|[]]]; [eauto | discriminate Hcall].
  - destruct Hin as [<-|[<-|[<-|[]]]]; [eauto | eauto | discriminate Hcall].
  - destruct Hin as [<-|[<-|Hin]]; [eauto | eauto |].
    apply in_app_or in Hin as [Hin|[<-|[<-|[]]]].
    + apply shown_is_show in Hin as [c ->]. eauto.
    + eauto.
    + discriminate Hcall.
  - destruct Hin as [<-|[<-|Hin]]; [eauto | eauto |].
    apply shown_is_show in Hin as [c ->]. eauto.
Qed.

(** The printer after the reader: the header and the lines, nothing that
    can throw, and the world as the reader left it. *)
Lemma printCommitHistory_run this w commits :
  result (getCommits tool this w) = inr commits ->
  printCommitHistory tool this w =
  mkOutcome (inr tt)
    (events (getCommits tool this w)
     ++ ConsoleLog ("Git History for " +:+ repoPath this +:+ " as of "
                    +:+ currentTime this +:+ ":" +:+ newline)
     :: match commits with
        | [] => [ConsoleLog "No commits found or not a git repository."]
        | _ :: _ => flat_map rendered commits
        end)
    (final (getCommits tool this w)).
Proof.
  intros Hres. unfold printCommitHistory. rewrite (bind_inr _ _ _ _ Hres).
  destruct commits as [|c commits].
  - reflexivity.
  - unfold bind, console_log, emit. cbn [result events final length Nat.eqb].
    rewrite forOf_printCommit. reflexivity.
Qed.

Lemma rendered_console commits ev :
  In ev (flat_map rendered commits) -> isGitCall ev = false.
Proof.
  intros Hin. apply in_flat_map in Hin as (c & _ & Hin).
  destruct Hin as [<-|[<-|[<-|[<-|[<-|[<-|[<-|[<-|[]]]]]]]]]; reflexivity.
Qed.

Lemma gitCalls_rendered commits : gitCalls (flat_map rendered commits) = [].
Proof.
  induction commits as [|c commits IH]; [reflexivity|].
  cbn [flat_map]. rewrite gitCalls_app, IH. reflexivity.
Qed.

(** X1.  [printCommitHistory] always returns, never throws, and every call
    it makes on a [SimpleGit] handle is [checkIsRepo], [log] or [show] on
    the logger's own path: it runs no [raw] command and touches no other
    repository. *)
Theorem printCommitHistory_returns_and_only_reads
    (path time : string) (w : W) :
  result (printCommitHistory tool (newGitLogger path time) w) = inr tt /\
  (forall ev,
     In ev (events (printCommitHistory tool (newGitLogger path time) w)) ->
     isGitCall ev = true -> readsOnly path ev) /\
  gitCalls (events (printCommitHistory tool (newGitLogger path time) w)) =
    gitCalls (events (getCommits tool (newGitLogger path time) w)) /\
  final (printCommitHistory tool (newGitLogger path time) w) =
    final (getCommits tool (newGitLogger path time) w).
Proof.
  destruct (getCommits_run tool (newGitLogger path time) w) as (cs & Hres & Hrun).
  rewrite (printCommitHistory_run _ _ _ Hres). cbn [result events final].
  split; [reflexivity|]. split; [|split; [|reflexivity]].
  - intros ev Hin Hcall. apply in_app_or in Hin as [Hin|[<-|Hin]].
    + exact (ReaderRun_reads _ _ _ _ Hrun Hin Hcall).
    + discriminate Hcall.
    + destruct cs as [|c cs].
      * destruct Hin as [<-|[]]. discriminate Hcall.
      * apply rendered_console in Hin. congruence.
  - rewrite gitCalls_app.
    replace (gitCalls
               (ConsoleLog ("Git History for " +:+ repoPath (newGitLogger path time)
                            +:+ " as of " +:+ currentTime (newGitLogger path time)
                            +:+ ":" +:+ newline)
                :: match cs with
                   | [] => [ConsoleLog "No commits found or not a git repository."]
                   | _ :: _ => flat_map rendered cs
                   end)) with (@nil Event); [by rewrite app_nil_r|].
    symmetry. destruct cs as [|c cs]; [reflexivity|].
    apply (gitCalls_rendered (c :: cs)).
Qed.

Lemma showEvents_shown dir cs : showEvents (map (shown dir) cs) = map (shown dir) cs.
Proof. induction cs as [|c cs IH]; [reflexivity|]. cbn. by rewrite <- IH at 2. Qed.

Lemma showEvents_app evs evs' : showEvents (evs ++ evs') = showEvents evs ++ showEvents evs'.
Proof. apply List.filter_app. Qed.

Lemma fromEntry_hashes all cs :
  Forall2 fromEntry all cs -> map hash cs = map log_hash all.
Proof.
  induction 1 as [|entry c all cs (Hh & _) _ IH]; [reflexivity|].
  cbn. by rewrite Hh, IH.
Qed.

(** The loop over [log.all] either looks up every entry, or stops at the
    entry whose lookup is rejected, after fulfilled lookups on the entries
    before it. *)
Lemma getCommits_loop_prefix this all acc w :
  (exists cs,
     result (forOfAcc all (getCommits_body tool this) acc w) = inr (acc ++ cs) /\
     Forall2 fromEntry all cs /\
     events (forOfAcc all (getCommits_body tool this) acc w) =
       map (shown (baseDir (git this))) cs) \/
  (exists n entry cs e,
     all !! n = Some entry /\
     Forall2 fromEntry (take n all) cs /\
     result (forOfAcc all (getCommits_body tool this) acc w) = inl e /\
     events (forOfAcc all (getCommits_body tool this) acc w) =
       map (shown (baseDir (git this))) cs
       ++ [GitShow (baseDir (git this)) [log_hash entry] (inl e)]).
Proof.
  revert acc w. induction all as [|entry all IH]; intros acc w.
  - left. exists []. cbn. rewrite app_nil_r. repeat split. constructor.
  - rewrite forOfAcc_cons, getCommits_body_eq. cbv zeta.
    destruct (tool_show tool (baseDir (git this)) [log_hash entry] w)
      as [[e|d] w1]; cbn [result events final].
    + right. exists 0, entry, [], e. repeat split. constructor.
    + set (c := {| hash := log_hash entry; author := log_author_name entry;
                   date := log_date entry; message := log_message entry;
                   diff := d |}).
      destruct (IH (acc ++ [c]) w1)
        as [(cs & Hres & Hall & Hev)|(n & en & cs & e & Hn & Hall & Hres & Hev)].
      * left. exists (c :: cs). rewrite Hres, Hev, <- app_assoc.
        repeat split. constructor; [repeat split|exact Hall].
      * right. exists (S n), en, (c :: cs), e. rewrite Hres, Hev.
        repeat split; [exact Hn|]. cbn [take].
        constructor; [repeat split|exact Hall].
Qed.

(** X9.  Whenever the log is retrieved, the [show] lookups of [getCommits]
    follow the log, one hash per call, in the order of the log.  Either
    none is rejected: then every entry of the log is looked up, once, and
    the records returned carry the answers.  Or, after fulfilled lookups on
    the first [n] entries, the lookup on the next entry is rejected: it is
    the last lookup made, and the result is empty. *)
Theorem getCommits_lookups_follow_the_log
    (path time : string) (w : W) (all : list LogEntry) :
  In (GitLog path (inr all)) (events (getCommits tool (newGitLogger path time) w)) ->
  (exists commits,
     result (getCommits tool (newGitLogger path time) w) = inr commits /\
     map hash commits = map log_hash all /\
     showEvents (events (getCommits tool (newGitLogger path time) w)) =
       map (fun c => GitShow path [hash c] (inr (diff c))) commits) \/
  (exists n entry e fulfilled,
     all !! n = Some entry /\
     map hash fulfilled = map log_hash (take n all) /\
     result (getCommits tool (newGitLogger path time) w) = inr [] /\
     showEvents (events (getCommits tool (newGitLogger path time) w)) =
       map (fun c => GitShow path [hash c] (inr (diff c))) fulfilled
       ++ [GitShow path [log_hash entry] (inl e)]).
Proof.
  unfold getCommits.
  unfold try_catch, bind, checkIsRepo, log, console_log, console_error, emit, ret.
  cbn beta. cbn [newGitLogger git baseDir].
  destruct (tool_checkIsRepo tool path w) as [[e|[|]] w1];
    cbn [result events final negb app].
  - intros [H|[H|[]]]; discriminate H.
  - destruct (tool_log tool path w1) as [[e|all'] w2];
      cbn [result events final app].
    + intros [H|[H|[H|[]]]]; discriminate H.
    + destruct (getCommits_loop_prefix (newGitLogger path time) all' [] w2)
        as [(cs & Hres & Hall & Hev)|(n & en & cs & e & Hn & Hall & Hres & Hev)];
        cbn [newGitLogger git baseDir] in Hev; rewrite Hres, Hev;
        cbn [result events final app].
      * intros [H|[H|H]]; [discriminate H | |].
        2:{ rewrite app_nil_r in H. apply shown_is_show in H as [c H].
            discriminate H. }
        injection H as <-. left. exists cs. rewrite app_nil_r.
        split; [reflexivity|]. split; [by apply fromEntry_hashes|].
        change (showEvents (map (shown path) cs) = map (shown path) cs).
        apply showEvents_shown.
      * intros [H|[H|H]]; [discriminate H | |].
        2:{ rewrite <- app_assoc in H.
            apply in_app_or in H as [H|[H|[H|[]]]]; try discriminate H.
            apply shown_is_show in H as [c H]. discriminate H. }
        injection H as <-. right. exists n, en, e, cs.
        split; [exact Hn|]. split; [by apply fromEntry_hashes|].
        split; [reflexivity|].
        change (showEvents ((map (shown path) cs
                             ++ [GitShow path [log_hash en] (inl e)])
                            ++ [ConsoleError "Error reading git history:" e])
                = map (shown path) cs ++ [GitShow path [log_hash en] (inl e)]).
        rewrite !showEvents_app, showEvents_shown. cbn. by rewrite app_nil_r.
  - intros [H|[H|[]]]; discriminate H.
Qed.

End ReaderMore.

(** ** More on the replayer *)

Section ReplayerMore.

Context {W : Type}.
Variable tool : GitTool W.

(** The events of a turn are among the seven a turn can make. *)
Lemma applyToRepo_body_turnEvent this targetGit options commit w ev :
  In ev (events (applyToRepo_body tool this targetGit options commit w)) ->
  turnEvent this (baseDir targetGit) options commit ev.
Proof.
  rewrite applyToRepo_body_eq. cbv zeta. unfold turnEvent.
  destruct (tool_raw tool (baseDir (git this)) (formatPatchArgs this commit) w)
    as [[e1|s1] w1].
  { unfold caught.
    destruct (tool_raw tool (baseDir targetGit) ["am"; "--abort"] w1) as [r' w'].
    cbn [events app]. intros [<-|[<-|[<-|[]]]]; eauto 10. }
  destruct (tool_raw tool (baseDir targetGit)
              (amArgsOf options (patchPathOf this commit)) w1) as [[e3|s3] w3].
  { unfold caught.
    destruct (tool_raw tool (baseDir targetGit) ["am"; "--abort"] w3) as [r' w'].
    cbn [events app]. intros [<-|[<-|[<-|[<-|[<-|[]]]]]]; eauto 10. }
  destruct (tool_raw tool (baseDir targetGit)
              ["clean"; "-f"; patchPathOf this commit] w3) as [[e4|s4] w4].
  { unfold caught.
    destruct (tool_raw tool (baseDir targetGit) ["am"; "--abort"] w4) as [r' w'].
    cbn [events app]. intros [<-|[<-|[<-|[<-|[<-|[<-|[]]]]]]]; eauto 10. }
  cbn [events]. intros [<-|[<-|[<-|[<-|[<-|[]]]]]]; eauto 10.
Qed.

Lemma forOf_turnEvent this targetGit options commits w ev :
  In ev (events (forOf commits (applyToRepo_body tool this targetGit options) w)) ->
  exists c, In c commits /\ turnEvent this (baseDir targetGit) options c ev.
Proof.
  rewrite forOf_events. intros Hin.
  apply in_flat_map in Hin as ([c w'] & Hturn & Hin). cbn [fst snd] in Hin.
  exists c. split; [|by apply applyToRepo_body_turnEvent in Hin].
  clear Hin. revert w Hturn. induction commits as [|c0 commits IH]; intros w.
  - intros [].
  - cbn [turns]. intros [[= <- <-]|Hin]; [by left|].
    destruct (result (applyToRepo_body tool this targetGit options c0 w));
      [destruct Hin|]. right. by apply IH in Hin.
Qed.

(** Where an event of [applyToRepo] comes from: the reader, the check of
    the target, a line of its own, or a turn of the loop. *)
Lemma applyToRepo_event this target options w commits ev :
  result (getCommits tool this w) = inr commits ->
  In ev (events (applyToRepo tool this target options w)) ->
  In ev (events (getCommits tool this w)) \/
  (exists line, ev = ConsoleLog line) \/
  (exists r, ev = GitCheckIsRepo target r) \/
  (exists c, In c commits /\ turnEvent this target options c ev).
Proof.
  intros Hres. rewrite (applyToRepo_eq tool _ _ _ _ _ Hres). cbv zeta.
  destruct commits as [|c cs]; cbn [events].
  { intros Hin. apply in_app_or in Hin as [Hin|[<-|[]]]; eauto. }
  destruct (tool_folderExists tool target (final (getCommits tool this w)));
    [|cbn [events]; eauto].
  destruct (tool_checkIsRepo tool target (final (getCommits tool this w)))
    as [[e|[|]] w'] eqn:Hcheck; cbn [events].
  - intros Hin. apply in_app_or in Hin as [Hin|[<-|[]]]; eauto.
  - intros Hin. apply in_app_or in Hin as [Hin|Hin]; [eauto|].
    apply in_app_or in Hin as [[<-|[<-|[]]]|Hin]; [eauto|eauto|].
    apply (forOf_turnEvent this (simpleGit target)) in Hin. eauto.
  - intros Hin. apply in_app_or in Hin as [Hin|[<-|[<-|[]]]]; eauto.
Qed.

(** X5.  The only [raw] commands a run of [applyToRepo] makes are, for
    commits the reader returned: [format-patch] on the source handle, and
    on the target handle the command that applies the patch, the [clean]
    of the patch path and [am --abort].  It runs nothing else: no reset,
    no checkout, no commit, no push. *)
Theorem applyToRepo_runs_only_four_commands
    (path time target : string) (options : ApplyOptions) (w : W)
    (commits : list GitCommit) (dir : string) (args : list string)
    (settled : JsError + string) :
  result (getCommits tool (newGitLogger path time) w) = inr commits ->
  In (GitRaw dir args settled)
     (events (applyToRepo tool (newGitLogger path time) target options w)) ->
  (dir = target /\ args = ["am"; "--abort"]) \/
  exists c,
    In c commits /\
    ((dir = path /\
      args = ["format-patch"; "--stdout"; "-1"; "--full-index"; "--binary";
              "--date-order"; hash c; "-o"; path]) \/
     (dir = target /\
      args = amArgsOf options (path +:+ "/temp_" +:+ hash c +:+ ".patch")) \/
     (dir = target /\
      args = ["clean"; "-f"; path +:+ "/temp_" +:+ hash c +:+ ".patch"])).
Proof.
  intros Hres Hin.
  destruct (getCommits_run tool (newGitLogger path time) w) as (cs & Hres' & Hrun).
  apply (applyToRepo_event _ _ _ _ _ _ Hres) in Hin
    as [Hin|[(line & H)|[(r & H)|(c & Hc & Hturn)]]]; try discriminate H.
  { exfalso. exact (ReaderRun_no_raw _ _ _ _ _ _ Hrun Hin). }
  unfold turnEvent in Hturn.
  change (baseDir (git (newGitLogger path time))) with path in Hturn.
  destruct Hturn as [(r & H)|[H|[(r & H)|[(r & H)|[H|[(e & H)|(r & H)]]]]]];
    try discriminate H; injection H as -> -> _.
  - right. exists c. split; [exact Hc|]. left. split; reflexivity.
  - right. exists c. split; [exact Hc|]. right. left. split; reflexivity.
  - right. exists c. split; [exact Hc|]. right. right. split; reflexivity.
  - left. split; reflexivity.
Qed.

(** A turn that throws ends with its rejected [am --abort]. *)
Lemma applyToRepo_body_throws_last this targetGit options commit w e :
  result (applyToRepo_body tool this targetGit options commit w) = inl e ->
  last (events (applyToRepo_body tool this targetGit options commit w)) =
    Some (GitRaw (baseDir targetGit) ["am"; "--abort"] (inl e)).
Proof.
  rewrite applyToRepo_body_eq. cbv zeta.
  destruct (tool_raw tool (baseDir (git this)) (formatPatchArgs this commit) w)
    as [[e1|s1] w1].
  { unfold caught.
    destruct (tool_raw tool (baseDir targetGit) ["am"; "--abort"] w1)
      as [[e'|s'] w']; cbn [result events app]; [|discriminate].
    by intros [= <-]. }
  destruct (tool_raw tool (baseDir targetGit)
              (amArgsOf options (patchPathOf this commit)) w1) as [[e3|s3] w3].
  { unfold caught.
    destruct (tool_raw tool (baseDir targetGit) ["am"; "--abort"] w3)
      as [[e'|s'] w']; cbn [result events app]; [|discriminate].
    by intros [= <-]. }
  destruct (tool_raw tool (baseDir targetGit)
              ["clean"; "-f"; patchPathOf this commit] w3) as [[e4|s4] w4].
  { unfold caught.
    destruct (tool_raw tool (baseDir targetGit) ["am"; "--abort"] w4)
      as [[e'|s'] w']; cbn [result events app]; [|discriminate].
    by intros [= <-]. }
  discriminate.
Qed.

Lemma forOf_throws_last this targetGit options commits w e :
  result (forOf commits (applyToRepo_body tool this targetGit options) w) = inl e ->
  last (events (forOf commits (applyToRepo_body tool this targetGit options) w)) =
    Some (GitRaw (baseDir targetGit) ["am"; "--abort"] (inl e)).
Proof.
  revert w. induction commits as [|c commits IH]; intros w; [discriminate|].
  rewrite forOf_cons.
  destruct (result (applyToRepo_body tool this targetGit options c w))
    as [e'|[]] eqn:Hres.
  - cbn [result events]. intros [= ->]. by apply applyToRepo_body_throws_last.
  - cbv zeta. cbn [result events]. intros Hthrow.
    rewrite last_app, (IH _ Hthrow). reflexivity.
Qed.

(** X3.  [applyToRepo] throws in three cases only.  The handle on the
    target cannot be made because the directory does not exist: the error
    is the one of [simpleGit], and nothing is done after the reader.  Or
    the check of the target is rejected, or an [am --abort] is rejected:
    the error thrown is the error of that call, and that call is the last
    thing the run does. *)
Theorem applyToRepo_throws_only_on_target_handle_check_or_abort
    (path time target : string) (options : ApplyOptions) (w : W) (e : JsError) :
  result (applyToRepo tool (newGitLogger path time) target options w) = inl e ->
  (tool_folderExists tool target
     (final (getCommits tool (newGitLogger path time) w)) = false /\
   e = GitError "Cannot use simple-git on a directory that does not exist" /\
   result (getCommits tool (newGitLogger path time) w) <> inr [] /\
   events (applyToRepo tool (newGitLogger path time) target options w) =
     events (getCommits tool (newGitLogger path time) w)) \/
  (tool_folderExists tool target
     (final (getCommits tool (newGitLogger path time) w)) = true /\
   (last (events (applyToRepo tool (newGitLogger path time) target options w)) =
      Some (GitCheckIsRepo target (inl e)) \/
    last (events (applyToRepo tool (newGitLogger path time) target options w)) =
      Some (GitRaw target ["am"; "--abort"] (inl e)))).
Proof.
  destruct (getCommits_run tool (newGitLogger path time) w) as (cs & Hres & _).
  rewrite (applyToRepo_eq tool _ _ _ _ _ Hres). cbv zeta.
  destruct cs as [|c cs]; cbn [result events]; [discriminate|].
  destruct (tool_folderExists tool target
              (final (getCommits tool (newGitLogger path time) w))).
  - destruct (tool_checkIsRepo tool target
                (final (getCommits tool (newGitLogger path time) w)))
      as [[e'|[|]] w']; cbn [result events].
    + intros [= ->]. right. split; [reflexivity|]. left. apply last_snoc.
    + intros Hthrow. right. split; [reflexivity|]. right.
      apply (forOf_throws_last _ (simpleGit target)) in Hthrow.
      rewrite !last_app, Hthrow. reflexivity.
    + discriminate.
  - cbn [result events]. intros [= <-]. left.
    split; [reflexivity|]. split; [reflexivity|]. split; [|reflexivity].
    rewrite Hres. discriminate.
Qed.

Lemma formatPatchCalls_app evs evs' :
  formatPatchCalls (evs ++ evs') = formatPatchCalls evs ++ formatPatchCalls evs'.
Proof. apply flat_map_app. Qed.

Lemma formatPatchCalls_amArgsOf dir options patchPath r :
  formatPatchCalls [GitRaw dir (amArgsOf options patchPath) r] = [].
Proof.
  unfold amArgsOf.
  destruct (truthy (newAuthor options) && truthy (newEmail options)); reflexivity.
Qed.

(** Whatever its outcome, a turn makes one [format-patch] call: its
    first. *)
Lemma formatPatchCalls_turn this targetGit options commit w :
  formatPatchCalls (events (applyToRepo_body tool this targetGit options commit w)) =
    [formatPatchArgs this commit].
Proof.
  rewrite applyToRepo_body_eq. cbv zeta.
  pose proof (formatPatchCalls_amArgsOf (baseDir targetGit) options
                (patchPathOf this commit)) as Ham.
  destruct (tool_raw tool (baseDir (git this)) (formatPatchArgs this commit) w)
    as [[e1|s1] w1].
  { unfold caught.
    destruct (tool_raw tool (baseDir targetGit) ["am"; "--abort"] w1) as [r' w'].
    reflexivity. }
  destruct (tool_raw tool (baseDir targetGit)
              (amArgsOf options (patchPathOf this commit)) w1) as [[e3|s3] w3].
  { unfold caught.
    destruct (tool_raw tool (baseDir targetGit) ["am"; "--abort"] w3) as [r' w'].
    cbn [events app].
    change (formatPatchCalls
              ([GitRaw (baseDir (git this)) (formatPatchArgs this commit) (inr s1);
                ConsoleLog (applyingLine commit)]
               ++ [GitRaw (baseDir targetGit)
                     (amArgsOf options (patchPathOf this commit)) (inl e3)]
               ++ [ConsoleError (failureLine commit) e3;
                   GitRaw (baseDir targetGit) ["am"; "--abort"] r'])
            = [formatPatchArgs this commit]).
    rewrite !formatPatchCalls_app, Ham. reflexivity. }
  destruct (tool_raw tool (baseDir targetGit)
              ["clean"; "-f"; patchPathOf this commit] w3) as [[e4|s4] w4].
  { unfold caught.
    destruct (tool_raw tool (baseDir targetGit) ["am"; "--abort"] w4) as [r' w'].
    cbn [events app].
    change (formatPatchCalls
              ([GitRaw (baseDir (git this)) (formatPatchArgs this commit) (inr s1);
                ConsoleLog (applyingLine commit)]
               ++ [GitRaw (baseDir targetGit)
                     (amArgsOf options (patchPathOf this commit)) (inr s3)]
               ++ [GitRaw (baseDir targetGit)
                     ["clean"; "-f"; patchPathOf this commit] (inl e4);
                   ConsoleError (failureLine commit) e4;
                   GitRaw (baseDir targetGit) ["am"; "--abort"] r'])
            = [formatPatchArgs this commit]).
    rewrite !formatPatchCalls_app, Ham. reflexivity. }
  cbn [events].
  change (formatPatchCalls
            ([GitRaw (baseDir (git this)) (formatPatchArgs this commit) (inr s1);
              ConsoleLog (applyingLine commit)]
             ++ [GitRaw (baseDir targetGit)
                   (amArgsOf options (patchPathOf this commit)) (inr s3)]
             ++ [GitRaw (baseDir targetGit)
                   ["clean"; "-f"; patchPathOf this commit] (inr s4);
                 ConsoleLog (successLine options commit)])
          = [formatPatchArgs this commit]).
  rewrite !formatPatchCalls_app, Ham. reflexivity.
Qed.

Lemma formatPatchCalls_loop this targetGit options commits w :
  formatPatchCalls
    (events (forOf commits (applyToRepo_body tool this targetGit options) w)) =
  map (formatPatchArgs this)
    (map fst (turns (applyToRepo_body tool this targetGit options) commits w)).
Proof.
  rewrite forOf_events.
  induction (turns (applyToRepo_body tool this targetGit options) commits w)
    as [|[c w'] ts IH]; [reflexivity|].
  cbn [flat_map map fst snd]. rewrite formatPatchCalls_app, formatPatchCalls_turn, IH.
  reflexivity.
Qed.

Lemma formatPatchCalls_reader this evs cs :
  ReaderRun this evs cs -> formatPatchCalls evs = [].
Proof.
  intros Hrun.
  assert (Hshown : forall dir l, formatPatchCalls (map (shown dir) l) = []).
  { intros dir l. induction l as [|c l IH]; [reflexivity | exact IH]. }
  destruct Hrun as [e0| |e0|all cs entry e0 Hentry|all cs Hall];
    try reflexivity.
  - change (formatPatchCalls
              (map (shown (baseDir (git this))) cs
               ++ [GitShow (baseDir (git this)) [log_hash entry] (inl e0);
                   ConsoleError "Error reading git history:" e0]) = []).
    rewrite formatPatchCalls_app, Hshown. reflexivity.
  - exact (Hshown _ _).
Qed.

(** X6.  When the target is a repository and no [am --abort] of the run is
    rejected, [applyToRepo] returns, and its [format-patch] calls are one
    per commit the reader returned, in the order the reader returned them:
    a commit that fails does not stop, reorder or repeat the ones after
    it. *)
Theorem replay_follows_retrieval_order
    (path time target : string) (options : ApplyOptions) (w : W)
    (commits : list GitCommit) :
  result (getCommits tool (newGitLogger path time) w) = inr commits ->
  (tool_checkIsRepo tool target
     (final (getCommits tool (newGitLogger path time) w))).1 = inr true ->
  (forall e,
     ~ In (GitRaw target ["am"; "--abort"] (inl e))
          (events (applyToRepo tool (newGitLogger path time) target options w))) ->
  result (applyToRepo tool (newGitLogger path time) target options w) = inr tt /\
  formatPatchCalls
    (events (applyToRepo tool (newGitLogger path time) target options w)) =
    map (fun c => ["format-patch"; "--stdout"; "-1"; "--full-index"; "--binary";
                   "--date-order"; hash c; "-o"; path]) commits.
Proof.
  intros Hres Hcheck.
  destruct (getCommits_run tool (newGitLogger path time) w) as (cs & Hres' & Hrun).
  pose proof (formatPatchCalls_reader _ _ _ Hrun) as Hreader.
  destruct commits as [|c commits].
  { intros _. unfold applyToRepo. rewrite (bind_inr _ _ _ _ Hres).
    cbn [length Nat.eqb result events]. split; [reflexivity|].
    rewrite formatPatchCalls_app, Hreader. reflexivity. }
  rewrite (applyToRepo_loop tool _ _ options _ _ _ Hres Hcheck).
  cbn [result events]. intros Habort.
  destruct (replay_reaches_every_commit tool (newGitLogger path time)
              (simpleGit target) options (c :: commits)
              (tool_checkIsRepo tool target
                 (final (getCommits tool (newGitLogger path time) w))).2)
    as [Hret Hturns].
  { intros e Hin. apply (Habort e). apply in_or_app. right.
    apply in_or_app. right. exact Hin. }
  split; [exact Hret|].
  rewrite !formatPatchCalls_app, Hreader, formatPatchCalls_loop, Hturns.
  reflexivity.
Qed.

(** X7.  A turn prints the success line of its commit only when all three
    of its commands were fulfilled: then it returns, no call of the turn
    was rejected and no failure line was printed.  A commit whose patch
    generation, application or clean-up failed is never reported as
    applied. *)
Theorem success_line_only_after_three_fulfilled_commands
    (path time target : string) (options : ApplyOptions)
    (commit : GitCommit) (w : W) :
  In (ConsoleLog (successLine options commit))
     (events (applyToRepo_body tool (newGitLogger path time) (simpleGit target)
                options commit w)) ->
  result (applyToRepo_body tool (newGitLogger path time) (simpleGit target)
            options commit w) = inr tt /\
  (forall ev,
     In ev (events (applyToRepo_body tool (newGitLogger path time)
                      (simpleGit target) options commit w)) ->
     rejectedWith ev = None) /\
  (forall line e,
     ~ In (ConsoleError line e)
          (events (applyToRepo_body tool (newGitLogger path time)
                     (simpleGit target) options commit w))) /\
  length (gitCalls (events (applyToRepo_body tool (newGitLogger path time)
                              (simpleGit target) options commit w))) = 3.
Proof.
  rewrite applyToRepo_body_eq. cbv zeta.
  destruct (tool_raw tool (baseDir (git (newGitLogger path time)))
              (formatPatchArgs (newGitLogger path time) commit) w)
    as [[e1|s1] w1].
  { unfold caught.
    destruct (tool_raw tool (baseDir (simpleGit target)) ["am"; "--abort"] w1)
      as [r' w'].
    cbn [events app]. intros [H|[H|[H|[]]]]; discriminate H. }
  destruct (tool_raw tool (baseDir (simpleGit target))
              (amArgsOf options (patchPathOf (newGitLogger path time) commit)) w1)
    as [[e3|s3] w3].
  { unfold caught.
    destruct (tool_raw tool (baseDir (simpleGit target)) ["am"; "--abort"] w3)
      as [r' w'].
    cbn [events app]. intros [H|[H|[H|[H|[H|[]]]]]]; try discriminate H. }
  destruct (tool_raw tool (baseDir (simpleGit target))
              ["clean"; "-f"; patchPathOf (newGitLogger path time) commit] w3)
    as [[e4|s4] w4].
  { unfold caught.
    destruct (tool_raw tool (baseDir (simpleGit target)) ["am"; "--abort"] w4)
      as [r' w'].
    cbn [events app]. intros [H|[H|[H|[H|[H|[H|[]]]]]]]; try discriminate H. }
  cbn [events result]. intros _. split; [reflexivity|]. split; [|split].
  - intros ev [<-|[<-|[<-|[<-|[<-|[]]]]]]; reflexivity.
  - intros line e [H|[H|[H|[H|[H|[]]]]]]; discriminate H.
  - reflexivity.
Qed.

End ReplayerMore.

(** ** The entry points *)

Section EntryPoints.

Context {W : Type}.
Variable tool : GitTool W.

Lemma ReaderRun_no_exit this evs cs code :
  ReaderRun this evs cs -> ~ In (ProcessExit code) evs.
Proof.
  intros Hrun Hin.
  destruct Hrun as [e0| |e0|all cs entry e0 Hentry|all cs Hall].
  - destruct Hin as [H|[H|[]]]; discriminate H.
  - destruct Hin as [H|[H|[]]]; discriminate H.
  - destruct Hin as [H|[H|[H|[]]]]; discriminate H.
  - destruct Hin as [H|[H|H]]; try discriminate H.
    apply in_app_or in H as [H|[H|[H|[]]]]; try discriminate H.
    apply shown_is_show in H as [c H]. discriminate H.
  - destruct Hin as [H|[H|H]]; try discriminate H.
    apply shown_is_show in H as [c H]. discriminate H.
Qed.

Lemma printCommitHistory_no_exit this w code :
  ~ In (ProcessExit code) (events (printCommitHistory tool this w)).
Proof.
  destruct (getCommits_run tool this w) as (cs & Hres & Hrun).
  rewrite (printCommitHistory_run tool _ _ _ Hres). cbn [events].
  intros Hin. apply in_app_or in Hin as [Hin|[H|Hin]].
  - exact (ReaderRun_no_exit _ _ _ _ Hrun Hin).
  - discriminate H.
  - destruct cs as [|c cs].
    + destruct Hin as [H|[]]. discriminate H.
    + apply in_flat_map in Hin as (c' & _ & Hin).
      destruct Hin as [H|[H|[H|[H|[H|[H|[H|[H|[]]]]]]]]]; discriminate H.
Qed.

Lemma printCommitHistory_returns this w :
  result (printCommitHistory tool this w) = inr tt.
Proof.
  destruct (getCommits_run tool this w) as (cs & Hres & _).
  by rewrite (printCommitHistory_run tool _ _ _ Hres).
Qed.

(** An outcome is its three fields. *)
Lemma outcome_eta {A} (o : Outcome W A) :
  mkOutcome (result o) (events o) (final o) = o.
Proof. by destruct o. Qed.

(** The entry point once the logger is made, and when it cannot be. *)
Lemma main_eq now options w :
  main tool now options w =
  if tool_folderExists tool (opt_path options) w then
    if truthy (opt_apply options) then
      try_catch
        (applyToRepo tool
           (newGitLogger (opt_path options) (default now (opt_time options)))
           (interpolate (opt_apply options)) (applyOptionsOf options))
        (fun error =>
           console_error "Failed to apply commits:" error ;;
           process_exit 1) w
    else
      try_catch
        (printCommitHistory tool
           (newGitLogger (opt_path options) (default now (opt_time options))))
        (fun error =>
           console_error "Failed to print git history:" error ;;
           process_exit 1) w
  else mkOutcome (inl gitConstructError) [] w.
Proof.
  unfold main, GitLogger_new. unfold bind at 1 2. unfold simpleGit_call.
  destruct (tool_folderExists tool (opt_path options) w);
    cbn [result events final ret app]; [|reflexivity].
  destruct (truthy (opt_apply options)); apply outcome_eta.
Qed.

Lemma main0_eq now options w :
  main0 tool now options w =
  if tool_folderExists tool (opt0_path options) w then
    try_catch
      (printCommitHistory tool
         (newGitLogger (opt0_path options) (default now (opt0_time options))))
      (fun error =>
         console_error "Failed to print git history:" error ;;
         process_exit 1) w
  else mkOutcome (inl gitConstructError) [] w.
Proof.
  unfold main0, GitLogger_new. unfold bind at 1 2. unfold simpleGit_call.
  destruct (tool_folderExists tool (opt0_path options) w);
    cbn [result events final ret app]; [|reflexivity].
  apply outcome_eta.
Qed.

(** In print mode the handler of the entry point is dead code. *)
Lemma main_print_mode now options w :
  truthy (opt_apply options) = false ->
  tool_folderExists tool (opt_path options) w = true ->
  main tool now options w =
    printCommitHistory tool
      (newGitLogger (opt_path options) (default now (opt_time options))) w.
Proof.
  intros Hmode Hdir. rewrite main_eq, Hdir, Hmode. unfold try_catch.
  by rewrite printCommitHistory_returns.
Qed.

Lemma applyToRepo_no_exit this target options w code :
  ~ In (ProcessExit code) (events (applyToRepo tool this target options w)).
Proof.
  destruct (getCommits_run tool this w) as (cs & Hres & Hrun).
  intros Hin.
  apply (applyToRepo_event tool _ _ _ _ _ _ Hres) in Hin
    as [Hin|[(line & H)|[(r & H)|(c & _ & Hturn)]]]; try discriminate H.
  - exact (ReaderRun_no_exit _ _ _ _ Hrun Hin).
  - destruct Hturn as [(r & H)|[H|[(r & H)|[(r & H)|[H|[(e & H)|(r & H)]]]]]];
      discriminate H.
Qed.

(** X2.  Without [--apply], or with an empty one, the entry point does
    what the entry point of the earlier version does, whatever the
    identity flags are.  When the directory of [--path] exists, the run is
    [printCommitHistory] on the logger of [--path] and nothing else: the
    [catch] handler never runs.  When it does not exist, the constructor
    of the logger throws and the script ends there, before any call to the
    tool and any line on the console.  In neither case does the script
    call [process.exit]. *)
Theorem main_without_apply_is_the_earlier_entry_point
    (now : string) (options : ProgramOpts) (w : W) :
  truthy (opt_apply options) = false ->
  main tool now options w =
    main0 tool now {| opt0_path := opt_path options;
                      opt0_time := opt_time options |} w /\
  (tool_folderExists tool (opt_path options) w = true ->
   main tool now options w =
     printCommitHistory tool
       (newGitLogger (opt_path options) (default now (opt_time options))) w) /\
  (tool_folderExists tool (opt_path options) w = false ->
   main tool now options w =
     mkOutcome
       (inl (GitError "Cannot use simple-git on a directory that does not exist"))
       [] w) /\
  forall code, ~ In (ProcessExit code) (events (main tool now options w)).
Proof.
  intros Hmode. split; [|split; [|split]].
  - rewrite main_eq, main0_eq, Hmode. reflexivity.
  - intros Hdir. by apply main_print_mode.
  - intros Hdir. rewrite main_eq, Hdir. reflexivity.
  - intros code.
    destruct (tool_folderExists tool (opt_path options) w) eqn:Hdir.
    + rewrite (main_print_mode now options w Hmode Hdir).
      apply printCommitHistory_no_exit.
    + rewrite main_eq, Hdir. intros [].
Qed.

(** X4.  The entry point itself never throws.  The process exits with a
    status of its own choosing in one case only: [--apply] names a target
    and [applyToRepo] throws; the status is then 1, and the error is
    printed just before. *)
Theorem main_exits_only_when_the_replay_throws
    (now : string) (options : ProgramOpts) (w : W) (code : Z) :
  In (ProcessExit code) (events (main tool now options w)) ->
  code = 1%Z /\
  exists target e,
    opt_apply options = Some target /\ target <> "" /\
    result (applyToRepo tool
              (newGitLogger (opt_path options) (default now (opt_time options)))
              target (applyOptionsOf options) w) = inl e /\
    events (main tool now options w) =
      events (applyToRepo tool
                (newGitLogger (opt_path options) (default now (opt_time options)))
                target (applyOptionsOf options) w)
      ++ [ConsoleError "Failed to apply commits:" e; ProcessExit 1] /\
    result (main tool now options w) = inr tt.
Proof.
  rewrite main_eq.
  destruct (tool_folderExists tool (opt_path options) w); [|intros []].
  destruct (truthy (opt_apply options)) eqn:Hmode.
  - apply truthy_Some in Hmode as (target & Htarget & Hne).
    rewrite Htarget. cbn [interpolate].
    unfold try_catch.
    destruct (result (applyToRepo tool
                (newGitLogger (opt_path options) (default now (opt_time options)))
                target (applyOptionsOf options) w)) as [e|[]] eqn:Hres.
    + unfold bind, console_error, process_exit, emit.
      cbn [result events final app]. intros Hin.
      apply in_app_or in Hin as [Hin|[H|[H|[]]]].
      * by apply applyToRepo_no_exit in Hin.
      * discriminate H.
      * injection H as <-. split; [reflexivity|].
        exists target, e. repeat split; auto.
    + intros Hin. by apply applyToRepo_no_exit in Hin.
  - unfold try_catch. rewrite printCommitHistory_returns. intros Hin.
    by apply printCommitHistory_no_exit in Hin.
Qed.

(** X8.  Through the command line the success line and the command agree
    on the author: when [--author] and [--email] are both given and not
    empty, the line names the new author and the command that applies the
    patch carries [--author "<name> <email>"]; otherwise the line names
    the original author and the command carries no override, even when
    one of the two flags was given. *)
Theorem command_line_author_label_matches_override
    (options : ProgramOpts) (commit : GitCommit) (patchPath : string) :
  (exists name email,
     opt_author options = Some name /\ name <> "" /\
     opt_email options = Some email /\ email <> "" /\
     authorInfoOf (applyOptionsOf options) commit = "new author: " +:+ name /\
     amArgsOf (applyOptionsOf options) patchPath =
       ["--committer-date-is-author-date"; "--ignore-space-change";
        "--ignore-whitespace"; "--3way";
        "--author"; name +:+ " <" +:+ email +:+ ">"; patchPath]) \/
  (truthy (opt_author options) && truthy (opt_email options) = false /\
   authorInfoOf (applyOptionsOf options) commit =
     "original author: " +:+ author commit /\
   amArgsOf (applyOptionsOf options) patchPath =
     ["--committer-date-is-author-date"; "--ignore-space-change";
      "--ignore-whitespace"; "--3way"; patchPath]).
Proof.
  unfold applyOptionsOf, authorInfoOf, amArgsOf.
  destruct (truthy (opt_author options) && truthy (opt_email options)) eqn:Hboth.
  - left. apply andb_true_iff in Hboth as [Ha He].
    pose proof Ha as Ha'. pose proof He as He'.
    apply truthy_Some in Ha as (name & Hname & Hne).
    apply truthy_Some in He as (email & Hemail & Hne').
    exists name, email.
    destruct (truthy (opt_committer options) && truthy (opt_committerEmail options));
      cbn [newAuthor newEmail noOptions]; rewrite Ha', He';
      rewrite Hname, Hemail; cbn [andb interpolate]; repeat split; auto.
  - right.
    destruct (truthy (opt_committer options) && truthy (opt_committerEmail options));
      cbn [newAuthor newEmail noOptions truthy andb]; repeat split.
Qed.

(** X10.  [applyToRepo] reads the history first and replays it afterwards:
    its events are those of one run of the reader followed by events among
    which there is no [log] and no [show].  The list of commits is fixed
    before the first patch is generated, also when the target is the
    source. *)
Theorem applyToRepo_reads_the_history_first
    (path time target : string) (options : ApplyOptions) (w : W) :
  exists replay,
    events (applyToRepo tool (newGitLogger path time) target options w) =
      events (getCommits tool (newGitLogger path time) w) ++ replay /\
    (forall dir args settled,
       ~ In (GitRaw dir args settled)
            (events (getCommits tool (newGitLogger path time) w))) /\
    (forall ev,
       In ev replay ->
       (forall dir settled, ev <> GitLog dir settled) /\
       (forall dir args settled, ev <> GitShow dir args settled)).
Proof.
  destruct (getCommits_run tool (newGitLogger path time) w) as (cs & Hres & Hrun).
  assert (Hturn : forall c ev,
    turnEvent (newGitLogger path time) target options c ev ->
    (forall dir settled, ev <> GitLog dir settled) /\
    (forall dir args settled, ev <> GitShow dir args settled)).
  { intros c ev [(r & ->)|[->|[(r & ->)|[(r & ->)|[->|[(e & ->)|(r & ->)]]]]]];
      split; intros; discriminate. }
  assert (Hreader : forall dir args settled,
    ~ In (GitRaw dir args settled)
         (events (getCommits tool (newGitLogger path time) w))).
  { intros dir args settled. exact (ReaderRun_no_raw _ _ _ _ _ _ Hrun). }
  rewrite (applyToRepo_eq tool _ _ _ _ _ Hres). cbv zeta.
  destruct cs as [|c cs]; cbn [events].
  { eexists. split; [reflexivity|]. split; [exact Hreader|].
    intros ev [<-|[]]. split; intros; discriminate. }
  destruct (tool_folderExists tool target
              (final (getCommits tool (newGitLogger path time) w))).
  2:{ exists []. cbn [events]. rewrite app_nil_r.
      split; [reflexivity|]. split; [exact Hreader|]. intros ev []. }
  destruct (tool_checkIsRepo tool target
              (final (getCommits tool (newGitLogger path time) w)))
    as [[e|[|]] w']; cbn [events];
    (eexists; split; [reflexivity|]; split; [exact Hreader|]).
  - intros ev [<-|[]]. split; intros; discriminate.
  - intros ev Hin. apply in_app_or in Hin as [[<-|[<-|[]]]|Hin];
      [split; intros; discriminate | split; intros; discriminate |].
    apply (forOf_turnEvent tool _ (simpleGit target)) in Hin as (c' & _ & Hin).
    exact (Hturn c' ev Hin).
  - intros ev [<-|[<-|[]]]; split; intros; discriminate.
Qed.

(** X11.  Through the command line the success line names a new committer
    exactly when [--committer] and [--committer-email] are both given and
    not empty; with one of them only it says [original committer].  In
    either case the command that applies the patch is the one made without
    any committer flag. *)
Theorem command_line_committer_label
    (options : ProgramOpts) (patchPath : string) :
  ((exists name email,
      opt_committer options = Some name /\ name <> "" /\
      opt_committerEmail options = Some email /\ email <> "" /\
      committerInfoOf (applyOptionsOf options) = "new committer: " +:+ name) \/
   (truthy (opt_committer options) && truthy (opt_committerEmail options) = false /\
    committerInfoOf (applyOptionsOf options) = "original committer")) /\
  amArgsOf (applyOptionsOf options) patchPath =
    amArgsOf (applyOptionsOf
                {| opt_path := opt_path options; opt_time := opt_time options;
                   opt_apply := opt_apply options;
                   opt_author := opt_author options;
                   opt_email := opt_email options;
                   opt_committer := None; opt_committerEmail := None |})
             patchPath.
Proof.
  split.
  - unfold applyOptionsOf, committerInfoOf.
    destruct (truthy (opt_committer options) && truthy (opt_committerEmail options))
      eqn:Hboth.
    + left. apply andb_true_iff in Hboth as [Hc He].
      pose proof Hc as Hc'.
      apply truthy_Some in Hc as (name & Hname & Hne).
      apply truthy_Some in He as (email & Hemail & Hne').
      exists name, email. cbn [newCommitter]. rewrite Hc', Hname.
      repeat split; auto.
    + right. split; [reflexivity|].
      destruct (truthy (opt_author options) && truthy (opt_email options));
        reflexivity.
  - unfold applyOptionsOf, amArgsOf. cbn [opt_author opt_email opt_committer
      opt_committerEmail truthy andb].
    destruct (truthy (opt_author options) && truthy (opt_email options));
      destruct (truthy (opt_committer options) && truthy (opt_committerEmail options));
      reflexivity.
Qed.

End EntryPoints.

(** The further properties on the scripted tool. *)

Lemma getCommits_lookups_follow_the_log_witness :
  showEvents (events (getCommits (scripted showRejected)
                        (newGitLogger "/src" "now") 0)) =
    [GitShow "/src" ["b2c4e6f"] (inr "diff of b2c4e6f");
     GitShow "/src" ["a1b3c5d"] (inl (GitError "fatal: bad object"))].
Proof.
  destruct (getCommits_lookups_follow_the_log (scripted showRejected)
              "/src" "now" 0 [entryA; entryB])
    as [(commits & _ & _ & Hev)|(n & entry & e & fulfilled & _ & _ & _ & Hev)].
  - vm_compute. tauto.
  - reflexivity.
  - reflexivity.
Defined.

Lemma applyToRepo_runs_only_four_commands_witness :
  ("/dst" = "/dst" /\ ["clean"; "-f"; "/src/temp_b2c4e6f.patch"] = ["am"; "--abort"]) \/
  exists c,
    In c [commitA; commitB] /\
    (("/dst" = "/src" /\
      ["clean"; "-f"; "/src/temp_b2c4e6f.patch"] =
        ["format-patch"; "--stdout"; "-1"; "--full-index"; "--binary";
         "--date-order"; hash c; "-o"; "/src"]) \/
     ("/dst" = "/dst" /\
      ["clean"; "-f"; "/src/temp_b2c4e6f.patch"] =
        amArgsOf noOptions ("/src" +:+ "/temp_" +:+ hash c +:+ ".patch")) \/
     ("/dst" = "/dst" /\
      ["clean"; "-f"; "/src/temp_b2c4e6f.patch"] =
        ["clean"; "-f"; "/src" +:+ "/temp_" +:+ hash c +:+ ".patch"])).
Proof.
  apply (applyToRepo_runs_only_four_commands (scripted healthy) "/src" "now"
           "/dst" noOptions 0 [commitA; commitB] "/dst"
           ["clean"; "-f"; "/src/temp_b2c4e6f.patch"] (inr "")).
  - reflexivity.
  - vm_compute. tauto.
Defined.

Lemma applyToRepo_throws_only_on_target_handle_check_or_abort_witness :
  events (applyToRepo (scripted healthy) (newGitLogger "/src" "now")
            "/nowhere" noOptions 0) =
    events (getCommits (scripted healthy) (newGitLogger "/src" "now") 0) /\
  last (events (applyToRepo (scripted rawRejected) (newGitLogger "/src" "now")
                  "/dst" noOptions 0)) =
    Some (GitRaw "/dst" ["am"; "--abort"]
            (inl (GitError "fatal: git exited with code 128"))).
Proof.
  split.
  - destruct (applyToRepo_throws_only_on_target_handle_check_or_abort
                (scripted healthy) "/src" "now" "/nowhere" noOptions 0
                (GitError "Cannot use simple-git on a directory that does not exist"))
      as [(_ & _ & _ & Hev)|(Hdir & _)].
    + reflexivity.
    + exact Hev.
    + vm_compute in Hdir. discriminate Hdir.
  - destruct (applyToRepo_throws_only_on_target_handle_check_or_abort
                (scripted rawRejected) "/src" "now" "/dst" noOptions 0
                (GitError "fatal: git exited with code 128"))
      as [(Hdir & _)|(_ & [Hlast|Hlast])].
    + reflexivity.
    + vm_compute in Hdir. discriminate Hdir.
    + vm_compute in Hlast. discriminate Hlast.
    + exact Hlast.
Defined.

Lemma replay_follows_retrieval_order_witness :
  result (applyToRepo (scripted conflicting) (newGitLogger "/src" "now") "/dst"
            noOptions 0) = inr tt /\
  formatPatchCalls
    (events (applyToRepo (scripted conflicting) (newGitLogger "/src" "now") "/dst"
               noOptions 0)) =
    [["format-patch"; "--stdout"; "-1"; "--full-index"; "--binary";
      "--date-order"; "b2c4e6f"; "-o"; "/src"];
     ["format-patch"; "--stdout"; "-1"; "--full-index"; "--binary";
      "--date-order"; "a1b3c5d"; "-o"; "/src"]].
Proof.
  apply (replay_follows_retrieval_order (scripted conflicting) "/src" "now" "/dst"
           noOptions 0 [commitA; commitB]).
  - reflexivity.
  - reflexivity.
  - intros e Hin. vm_compute in Hin.
    repeat (destruct Hin as [Hin|Hin]; [discriminate Hin|]). exact Hin.
Defined.

Lemma success_line_only_after_three_fulfilled_commands_witness :
  result (applyToRepo_body (scripted healthy) (newGitLogger "/src" "now")
            (simpleGit "/dst") namesOnly commitA 0) = inr tt /\
  length (gitCalls (events (applyToRepo_body (scripted healthy)
                              (newGitLogger "/src" "now") (simpleGit "/dst")
                              namesOnly commitA 0))) = 3.
Proof.
  destruct (success_line_only_after_three_fulfilled_commands (scripted healthy)
              "/src" "now" "/dst" namesOnly commitA 0) as (Hret & _ & _ & Hlen).
  - vm_compute. tauto.
  - split; [exact Hret | exact Hlen].
Defined.

Lemma main_without_apply_is_the_earlier_entry_point_witness :
  main (scripted healthy) "now"
    {| opt_path := "/src"; opt_time := Some ""; opt_apply := Some "";
       opt_author := Some "Eve"; opt_email := Some "eve@example.org";
       opt_committer := None; opt_committerEmail := None |} 0 =
  main0 (scripted healthy) "now"
    {| opt0_path := "/src"; opt0_time := Some "" |} 0.
Proof.
  destruct (main_without_apply_is_the_earlier_entry_point (scripted healthy) "now"
              {| opt_path := "/src"; opt_time := Some ""; opt_apply := Some "";
                 opt_author := Some "Eve"; opt_email := Some "eve@example.org";
                 opt_committer := None; opt_committerEmail := None |} 0)
    as [Hsame _].
  - reflexivity.
  - exact Hsame.
Defined.

Lemma main_exits_only_when_the_replay_throws_witness :
  exists target e,
    result (applyToRepo (scripted rawRejected) (newGitLogger "/src" "now")
              target noOptions 0) = inl e.
Proof.
  destruct (main_exits_only_when_the_replay_throws (scripted rawRejected) "now"
              {| opt_path := "/src"; opt_time := None; opt_apply := Some "/dst";
                 opt_author := None; opt_email := None;
                 opt_committer := None; opt_committerEmail := None |} 0 1%Z)
    as (_ & target & e & _ & _ & Hres & _).
  - vm_compute. tauto.
  - exists target, e. exact Hres.
Defined.
